(** * Stochastic Outlier Selection: the detector of
      [autotabular/algorithms/anomaly/sos.py]

    The file embeds the numerical pipeline of the [SOS] class
    (dissimilarity, affinity calibration, binding probabilities, outlier
    scores) and the facade methods [fit] and [decision_function], and
    proves the properties the specification states about them.

    ** Number models

    numpy computes on IEEE binary64 values.  The file embeds the numerical
    code twice.

    - Parts I to III keep the special values the code itself tests for
      (not-a-number, the two infinities) and take every finite value as a
      real number with exact arithmetic; there is one zero, and the special
      values follow the IEEE rules ([inf - inf], [0 * inf], [0 / 0] and
      [inf / inf] are not-a-number, [x / 0] is an infinity for [x <> 0],
      [log 0 = -inf]).  Rounding, overflow and underflow are outside this
      model.  It carries the properties that do not depend on how a result
      is rounded: the branches and the termination of the calibration
      loop, the cells an operation reads and writes, the shapes of the
      arrays, the exceptions and the order of the stages.
    - The module [Binary64] and Part IV compute on binary64 values, the
      primitive floats of Rocq, with [np.exp] and [np.log] as parameters.
      They carry the properties that depend on rounding, overflow and
      underflow: the cells of the Euclidean dissimilarity, the
      normalisation of a row, the sign of the precision, and what a
      permutation of the samples changes. *)

From Stdlib Require Import String Ascii.
From Stdlib Require Import Reals Lra Lia ZArith List Bool.
From Stdlib Require Import Permutation Recdef FunInd.
From Stdlib Require Floats.
Import ListNotations.

Local Open Scope R_scope.

(* ===================================================================== *)
(** * Part I.  Definitions *)
(* ===================================================================== *)

(** ** Scalars *)

Inductive float : Type :=
| NaN : float
| NInf : float
| PInf : float
| Fin (r : R) : float.

Definition Rltb (a b : R) : bool := if Rlt_dec a b then true else false.
Definition Reqb (a b : R) : bool := if Req_dec_T a b then true else false.

(** [inf_of neg] is the infinity of the given sign. *)
Definition inf_of (neg : bool) : float := if neg then NInf else PInf.

Definition fneg (x : float) : float :=
  match x with
  | NaN => NaN
  | NInf => PInf
  | PInf => NInf
  | Fin a => Fin (- a)
  end.

Definition fadd (x y : float) : float :=
  match x, y with
  | NaN, _ | _, NaN => NaN
  | PInf, NInf | NInf, PInf => NaN
  | PInf, _ | _, PInf => PInf
  | NInf, _ | _, NInf => NInf
  | Fin a, Fin b => Fin (a + b)
  end.

Definition fsub (x y : float) : float := fadd x (fneg y).

(** Sign of an infinity times a finite factor [b]; [0 * inf] is NaN. *)
Definition inf_times (neg : bool) (b : R) : float :=
  if Reqb b 0 then NaN else inf_of (xorb neg (Rltb b 0)).

Definition is_neg_inf (x : float) : bool :=
  match x with NInf => true | _ => false end.

Definition fmul (x y : float) : float :=
  match x, y with
  | NaN, _ | _, NaN => NaN
  | Fin a, Fin b => Fin (a * b)
  | Fin a, (NInf | PInf) => inf_times (is_neg_inf y) a
  | (NInf | PInf), Fin b => inf_times (is_neg_inf x) b
  | _, _ => inf_of (xorb (is_neg_inf x) (is_neg_inf y))
  end.

Definition fdiv (x y : float) : float :=
  match x, y with
  | NaN, _ | _, NaN => NaN
  | Fin a, Fin b =>
      if Reqb b 0 then (if Reqb a 0 then NaN else inf_of (Rltb a 0))
      else Fin (a / b)
  | Fin _, _ => Fin 0
  | _, Fin b => inf_of (xorb (is_neg_inf x) (Rltb b 0))
  | _, _ => NaN
  end.

Definition fabs (x : float) : float :=
  match x with
  | NaN => NaN
  | NInf | PInf => PInf
  | Fin a => Fin (Rabs a)
  end.

Definition fsqrt (x : float) : float :=
  match x with
  | NaN | NInf => NaN
  | PInf => PInf
  | Fin a => if Rltb a 0 then NaN else Fin (sqrt a)
  end.

Definition fexp (x : float) : float :=
  match x with
  | NaN => NaN
  | NInf => Fin 0
  | PInf => PInf
  | Fin a => Fin (exp a)
  end.

Definition flog (x : float) : float :=
  match x with
  | NaN | NInf => NaN
  | PInf => PInf
  | Fin a => if Rltb 0 a then Fin (ln a) else if Reqb a 0 then NInf else NaN
  end.

Definition isnan (x : float) : bool :=
  match x with NaN => true | _ => false end.

(** [x < y]; every comparison with NaN is false. *)
Definition fltb (x y : float) : bool :=
  match x, y with
  | NaN, _ | _, NaN => false
  | _, NInf => false
  | NInf, _ => true
  | PInf, _ => false
  | Fin _, PInf => true
  | Fin a, Fin b => Rltb a b
  end.

Definition fgtb (x y : float) : bool := fltb y x.

(** [x == y] of IEEE: NaN is equal to nothing. *)
Definition feqb (x y : float) : bool :=
  match x, y with
  | NInf, NInf | PInf, PInf => true
  | Fin a, Fin b => Reqb a b
  | _, _ => false
  end.

Definition isfinite (x : float) : bool :=
  match x with Fin _ => true | _ => false end.

(** ** Arrays

    A one-dimensional array is a list, a two-dimensional array the list of
    its rows. *)

Definition vector := list float.
Definition matrix := list (list float).

Definition nrows (M : matrix) : nat := length M.
Definition ncols (M : matrix) : nat := length (hd [] M).

(** [M.shape] of a two-dimensional array. *)
Definition shape (M : matrix) : nat * nat := (nrows M, ncols M).

Definition rectangular (n d : nat) (M : matrix) : Prop :=
  length M = n /\ Forall (fun row => length row = d) M.

Definition get (v : vector) (j : nat) : float := nth j v (Fin 0).
Definition get2 (M : matrix) (i j : nat) : float := get (nth i M []) j.

(** [v[j] = x], for a cell of a vector or a row of a matrix. *)
Fixpoint set {T : Type} (v : list T) (j : nat) (x : T) : list T :=
  match v, j with
  | [], _ => []
  | _ :: t, O => x :: t
  | h :: t, S j' => h :: set t j' x
  end.

Fixpoint map2 {A B C : Type} (f : A -> B -> C) (l : list A) (l' : list B)
  : list C :=
  match l, l' with
  | a :: t, b :: t' => f a b :: map2 f t t'
  | _, _ => []
  end.

Definition np_zeros (n m : nat) : matrix := repeat (repeat (Fin 0) m) n.
Definition np_ones (n : nat) : vector := repeat (Fin 1) n.

(** [np.sum(v)] and [np.prod(v)]. *)
Definition np_sum (v : vector) : float := fold_left fadd v (Fin 0).
Definition np_prod (v : vector) : float := fold_left fmul v (Fin 1).

(** [np.sum(M, 1)]: one sum per row. *)
Definition np_sum_axis1 (M : matrix) : vector := map np_sum M.

(** [np.prod(M, 0)]: one product per column, the rows folded in order. *)
Definition np_prod_axis0 (M : matrix) : vector :=
  fold_left (map2 fmul) M (np_ones (ncols M)).

(** Column [j] of [M]. *)
Definition column (M : matrix) (j : nat) : vector :=
  map (fun row => get row j) M.

(** [M.T] for an array of [d] columns. *)
Definition transpose (d : nat) (M : matrix) : matrix :=
  map (column M) (seq 0 d).

Definition dot_vec (u v : vector) : float := np_sum (map2 fmul u v).

(** [np.dot(X, Y)] with [Y] of [m] columns. *)
Definition np_dot (m : nat) (X Y : matrix) : matrix :=
  map (fun x => map (fun j => dot_vec x (column Y j)) (seq 0 m)) X.

(** [np.add(M, v)]: [v] is broadcast over the rows. *)
Definition add_rowvec (M : matrix) (v : vector) : matrix :=
  map (fun row => map2 fadd row v) M.

Definition mat_map (f : float -> float) (M : matrix) : matrix :=
  map (map f) M.

(** [np.concatenate((np.r_[0:i], np.r_[i + 1:n]))]. *)
Definition others (i n : nat) : list nat :=
  seq 0 i ++ seq (i + 1) (n - (i + 1)).

(** [v[idx]] for an index array. *)
Definition take (v : vector) (idx : list nat) : vector :=
  map (get v) idx.

(** [v[idx] = w] for an index array. *)
Fixpoint put (v : vector) (idx : list nat) (w : vector) : vector :=
  match idx, w with
  | j :: idx', x :: w' => put (set v j x) idx' w'
  | _, _ => v
  end.

(** ** Exceptions and the facade's effects

    A method either raises or returns.  [fit] and [decision_function] run
    in a small monad that also records, in order, every stage of the
    pipeline that has produced its array; the record is ghost state used to
    state "before any computation". *)

Inductive exn : Type :=
| ValueError (msg : string)
| ImportError (msg : string)
| NotFittedError.

Inductive event : Type :=
| Computed_D (D : matrix)
| Computed_A (A : matrix)
| Computed_B (B : matrix)
| Computed_O (O : vector).

Definition run (T : Type) : Type := (list event * (exn + T))%type.

Definition ret {T : Type} (x : T) : run T := ([], inr x).

Definition bind {T U : Type} (m : run T) (k : T -> run U) : run U :=
  match m with
  | (tr, inl e) => (tr, inl e)
  | (tr, inr x) => let (tr', r) := k x in (tr ++ tr', r)
  end.

Notation "x <- m ;; k" := (bind m (fun x => k))
  (at level 61, m at next level, right associativity).

(** A call that may raise. *)
Definition call {T : Type} (r : exn + T) : run T := ([], r).

(** A stage that has produced its array. *)
Definition stage {T : Type} (ev : T -> event) (r : exn + T) : run T :=
  match r with
  | inl e => ([], inl e)
  | inr x => ([ev x], inr x)
  end.

(** ** Strings: [str.lower] on ASCII names *)

Definition lower_ascii (c : ascii) : ascii :=
  let n := nat_of_ascii c in
  if ((65 <=? n) && (n <=? 90))%nat then ascii_of_nat (n + 32) else c.

Fixpoint lower (s : string) : string :=
  match s with
  | EmptyString => EmptyString
  | String c t => String (lower_ascii c) (lower t)
  end.

(** ** The inner evaluation [_get_perplexity] *)

Definition _get_perplexity (D : vector) (beta : float) : float * vector :=
  let A := map (fun d => fexp (fmul (fneg d) beta)) D in
  let sumA := np_sum A in
  let H := fadd (flog sumA) (fdiv (fmul beta (np_sum (map2 fmul D A))) sumA) in
  (H, A).

(** ** The calibration loop of [_d2a]

    [calib] holds the variables the [while] loop of one row reads and
    writes; [beta_i] is the cell [beta[i]]. *)

Record calib : Type := {
  beta_i : float;
  betamin : float;
  betamax : float;
  H_i : float;
  thisA : vector;
  Hdiff : float;
  tries : Z
}.

Definition max_tries : Z := 5000.

(** The loop condition
    [(np.isnan(Hdiff) or np.abs(Hdiff) > self.eps) and tries < 5000]. *)
Definition off_target (eps : float) (s : calib) : bool :=
  isnan (Hdiff s) || fgtb (fabs (Hdiff s)) eps.

Definition continue (eps : float) (s : calib) : bool :=
  off_target eps s && (tries s <? max_tries)%Z.

(** [b == np.inf or b == -np.inf]. *)
Definition unbounded (b : float) : bool := feqb b PInf || feqb b NInf.

(** The three assignments to [beta[i]], [betamin] and [betamax] of one
    iteration. *)
Definition adjust (s : calib) : float * float * float :=
  if isnan (Hdiff s) then
    (fdiv (beta_i s) (Fin 10), betamin s, betamax s)
  else if fgtb (Hdiff s) (Fin 0) then
    let betamin' := beta_i s in
    if unbounded (betamax s)
    then (fmul (beta_i s) (Fin 2), betamin', betamax s)
    else (fdiv (fadd (beta_i s) (betamax s)) (Fin 2), betamin', betamax s)
  else
    let betamax' := beta_i s in
    if unbounded (betamin s)
    then (fdiv (beta_i s) (Fin 2), betamin s, betamax')
    else (fdiv (fadd (beta_i s) (betamin s)) (Fin 2), betamin s, betamax').

(** One iteration of the loop body. *)
Definition iteration (Di : vector) (logU : float) (s : calib) : calib :=
  let '(b, bmin, bmax) := adjust s in
  let (H, A) := _get_perplexity Di b in
  {| beta_i := b; betamin := bmin; betamax := bmax;
     H_i := H; thisA := A; Hdiff := fsub H logU; tries := tries s + 1 |}.

(** The state on entry to the loop. *)
Definition entry (Di : vector) (logU beta : float) : calib :=
  let (H, A) := _get_perplexity Di beta in
  {| beta_i := beta; betamin := NInf; betamax := PInf;
     H_i := H; thisA := A; Hdiff := fsub H logU; tries := 0 |}.

(** The [while] loop; it terminates because [tries] grows towards
    [max_tries]. *)
Function search (Di : vector) (logU eps : float) (s : calib)
  {measure (fun s => Z.to_nat (max_tries - tries s)) s} : calib :=
  if continue eps s then search Di logU eps (iteration Di logU s) else s.
Proof.
  intros Di logU eps s Hc. unfold continue in Hc.
  apply andb_prop in Hc as [_ Hc]. apply Z.ltb_lt in Hc.
  unfold iteration. destruct (adjust s) as [[b bmin] bmax].
  destruct (_get_perplexity Di b) as [H A]. cbn [tries]. lia.
Defined.

(** ** The detector *)

(** The attributes of an [SOS] object: the four configured by [__init__]
    and the three of the fitted state. *)
Record SOS : Type := {
  contamination : float;
  perplexity : float;
  metric : string;
  eps : float;
  decision_scores_ : option vector;
  threshold_ : option float;
  labels_ : option (list bool)
}.

(** [__init__]; the constructor of [BaseDetector], which receives
    [contamination], is not part of the sources. *)
Definition __init__ (contamination perplexity : float) (metric : string)
  (eps : float) : SOS :=
  {| contamination := contamination;
     perplexity := perplexity;
     metric := lower metric;
     eps := eps;
     decision_scores_ := None;
     threshold_ := None;
     labels_ := None |}.

Definition default_contamination : float := Fin (1 / 10).
Definition default_perplexity : float := Fin (45 / 10).
Definition default_metric : string := "euclidean".
Definition default_eps : float := Fin (1 / 100000).

Definition msg_not_square : string :=
  "If you specify 'none' as the metric, the data set should be a square dissimilarity matrix".

Definition msg_no_scipy : string :=
  "Please install scipy if you wish to use a metric other than 'euclidean' or 'none'".

Definition msg_not_finite : string := "input contains NaN or infinity".
Definition msg_no_sample : string := "found array with 0 sample(s)".
Definition msg_no_feature : string := "found array with 0 feature(s)".

Definition all_finite (X : matrix) : bool :=
  forallb (forallb isfinite) X.

(** [check_array] is the input validation of scikit-learn
    ([sklearn.utils.check_array]), a library that is not part of the
    sources.  [fit] and [decision_function] call it with its default
    arguments, under which it raises a [ValueError] for an array with a
    cell that is NaN or infinite ([force_all_finite = True]), for one with
    no row ([ensure_min_samples = 1]) and for one with no column
    ([ensure_min_features = 1]), in this order, and returns the array
    otherwise.  An array of a single row passes. *)
Definition check_array (X : matrix) : exn + matrix :=
  if negb (all_finite X) then inl (ValueError msg_not_finite)
  else if (nrows X <? 1)%nat then inl (ValueError msg_no_sample)
  else if (ncols X <? 1)%nat then inl (ValueError msg_no_feature)
  else inr X.

Definition square (x : float) : float := fmul x x.

Section Detector.

(** [scipy.spatial.distance], when it can be imported: the composition
    [squareform (pdist X metric)], which may raise. *)
Variable scipy_distance : option (string -> matrix -> exn + matrix).

(** The methods of [BaseDetector] that [fit] calls; the base class is not
    part of the sources.  They update attributes of the object. *)
Variable _set_n_classes : SOS -> SOS.
Variable _process_decision_scores : SOS -> SOS.

Definition _x2d (self : SOS) (X : matrix) : exn + matrix :=
  let '(n, d) := shape X in
  if String.eqb (metric self) "none" then
    if negb (n =? d)%nat then inl (ValueError msg_not_square)
    else inr X
  else if String.eqb (metric self) "euclidean" then
    let sumX := np_sum_axis1 (mat_map square X) in
    let G := mat_map (fmul (Fin (-2))) (np_dot n X (transpose d X)) in
    inr (mat_map fsqrt
           (mat_map fabs
              (add_rowvec (transpose n (add_rowvec G sumX)) sumX)))
  else
    match scipy_distance with
    | None => inl (ImportError msg_no_scipy)
    | Some dist => dist (metric self) X
    end.

(** The body of [for i in range(n)]: the state is the pair of the arrays
    [A] and [beta]. *)
Definition d2a_row (D : matrix) (n : nat) (logU eps : float)
  (st : matrix * vector) (i : nat) : matrix * vector :=
  let (A, beta) := st in
  let Di := take (nth i D []) (others i n) in
  let s := search Di logU eps (entry Di logU (get beta i)) in
  (set A i (put (nth i A []) (others i n) (thisA s)),
   set beta i (beta_i s)).

Definition _d2a (self : SOS) (D : matrix) : matrix :=
  let n := fst (shape D) in
  let A := np_zeros n n in
  let beta := np_ones n in
  let logU := flog (perplexity self) in
  fst (fold_left (d2a_row D n logU (eps self)) (seq 0 n) (A, beta)).

Definition _a2b (A : matrix) : matrix :=
  map2 (fun row s => map (fun a => fdiv a s) row) A (np_sum_axis1 A).

Definition _b2o (B : matrix) : vector :=
  np_prod_axis0 (mat_map (fsub (Fin 1)) B).

Definition fit (self : SOS) (X : matrix) : run SOS :=
  X <- call (check_array X) ;;
  let self := _set_n_classes self in
  D <- stage Computed_D (_x2d self X) ;;
  A <- stage Computed_A (inr (_d2a self D)) ;;
  B <- stage Computed_B (inr (_a2b A)) ;;
  O <- stage Computed_O (inr (_b2o B)) ;;
  let self :=
    {| contamination := contamination self;
       perplexity := perplexity self;
       metric := metric self;
       eps := eps self;
       decision_scores_ := Some O;
       threshold_ := threshold_ self;
       labels_ := labels_ self |} in
  ret (_process_decision_scores self).

(** [check_is_fitted(self, ['decision_scores_', 'threshold_', 'labels_'])]. *)
Definition check_is_fitted (self : SOS) : exn + unit :=
  match decision_scores_ self, threshold_ self, labels_ self with
  | Some _, Some _, Some _ => inr tt
  | _, _, _ => inl NotFittedError
  end.

Definition decision_function (self : SOS) (X : matrix) : run vector :=
  _ <- call (check_is_fitted self) ;;
  X <- call (check_array X) ;;
  D <- stage Computed_D (_x2d self X) ;;
  A <- stage Computed_A (inr (_d2a self D)) ;;
  B <- stage Computed_B (inr (_a2b A)) ;;
  O <- stage Computed_O (inr (_b2o B)) ;;
  ret O.

End Detector.

(** The off-diagonal cells of row [i] of [D], and the state in which the
    loop of row [i] ends when it starts from [beta[i] = 1]. *)
Definition off_diagonal (D : matrix) (n i : nat) : vector :=
  take (nth i D []) (others i n).

Definition row_state (D : matrix) (n : nat) (logU eps : float) (i : nat)
  : calib :=
  let Di := off_diagonal D n i in
  search Di logU eps (entry Di logU (Fin 1)).

(** Row [i] of the affinity matrix: the kernel of the final state written
    into a row of zeros at the off-diagonal positions. *)
Definition affinity_row (D : matrix) (n : nat) (logU eps : float) (i : nat)
  : vector :=
  put (repeat (Fin 0) n) (others i n) (thisA (row_state D n logU eps i)).

(** The state of a row after [k] iterations of the loop body. *)
Definition after (Di : vector) (logU : float) (k : nat) : calib :=
  Nat.iter k (iteration Di logU) (entry Di logU (Fin 1)).

(** The squared norm of a row, as [np.sum(np.square(X), 1)] computes it. *)
Definition sq_norm (x : vector) : float := np_sum (map square x).

(** The sum of a list of reals, folded as [np_sum] folds. *)
Definition Rsum (l : list R) : R := fold_left Rplus l 0.

(** The cell of the Euclidean branch of [_x2d] at rows [xi] and [xj]. *)
Definition euclidean_cell (xi xj : vector) : float :=
  fsqrt (fabs (fadd (fadd (fmul (Fin (-2)) (dot_vec xj xi)) (sq_norm xi))
                 (sq_norm xj))).

(** The Gaussian kernel of [_get_perplexity] at one dissimilarity. *)
Definition kernel (beta d : float) : float := fexp (fmul (fneg d) beta).

(** ** Predicates of the statements *)

(** A finite value in the interval [[0, 1]]. *)
Definition in_unit (x : float) : Prop :=
  exists r, x = Fin r /\ 0 <= r <= 1.

(** Every cell of an [n] by [m] array satisfies [P]. *)
Definition cells (n m : nat) (P : float -> Prop) (M : matrix) : Prop :=
  forall i j, (i < n)%nat -> (j < m)%nat -> P (get2 M i j).

(** A finite, strictly positive value. *)
Definition positive (x : float) : Prop :=
  exists r, x = Fin r /\ 0 < r.

(** The states of the calibration of one row: the state on entry to the
    loop and the state after each iteration the loop condition lets run. *)
Inductive visited (Di : vector) (logU eps : float) : calib -> Prop :=
| visited_entry : visited Di logU eps (entry Di logU (Fin 1))
| visited_iteration (s : calib) :
    visited Di logU eps s -> continue eps s = true ->
    visited Di logU eps (iteration Di logU s).

(** The position of column [j] in the index array of row [i]. *)
Definition position (i j : nat) : nat :=
  if (j <? i)%nat then j else (j - 1)%nat.

(** What holds of every state of the calibration of a row. *)
Definition calib_inv (Di : vector) (s : calib) : Prop :=
  positive (beta_i s) /\
  (betamin s = NInf \/ positive (betamin s)) /\
  (betamax s = PInf \/ positive (betamax s)) /\
  thisA s = snd (_get_perplexity Di (beta_i s)) /\
  (0 <= tries s <= max_tries)%Z.

(** ** Example data *)

(** A 5 by 3 input, as in the scenario of the specification, and a square
    one. *)
Definition X_5x3 : matrix := repeat [Fin 0; Fin 1; Fin 2] 5.
Definition D_2x2 : matrix := [[Fin 0; Fin 1]; [Fin 1; Fin 0]].

Definition SOS_named (name : string) : SOS :=
  __init__ default_contamination default_perplexity name default_eps.

(** A matrix of binding probabilities, a state of the loop whose entropy
    is above the target, the pairwise distances of the five collinear
    points 0, 1, 2, 3, 100, a detector with perplexity 50, two samples of
    one feature, their exchange, and an affinity matrix. *)
Definition B_example : matrix :=
  [[Fin 0; Fin (1 / 2)]; [Fin 1; Fin 0]].

Definition too_flat : calib :=
  {| beta_i := Fin 1; betamin := NInf; betamax := PInf;
     H_i := Fin 2; thisA := [Fin 1]; Hdiff := Fin 1; tries := 0 |}.

Definition D_5x5 : matrix :=
  [[Fin 0; Fin 1; Fin 2; Fin 3; Fin 100];
   [Fin 1; Fin 0; Fin 1; Fin 2; Fin 99];
   [Fin 2; Fin 1; Fin 0; Fin 1; Fin 98];
   [Fin 3; Fin 2; Fin 1; Fin 0; Fin 97];
   [Fin 100; Fin 99; Fin 98; Fin 97; Fin 0]].

Definition SOS_perplexity_50 : SOS :=
  __init__ default_contamination (Fin 50) default_metric default_eps.

Definition X_2x1 : matrix := [[Fin 0]; [Fin 3]].

(** A one-sample dissimilarity matrix. *)
Definition D_1x1 (d : float) : matrix := [[d]].

(** A method of the base class keeps the configuration of the detector. *)
Definition keeps_configuration (f : SOS -> SOS) : Prop :=
  forall s, perplexity (f s) = perplexity s /\ metric (f s) = metric s /\
            eps (f s) = eps s.

(** [_process_decision_scores] keeps the stored scores and sets the
    threshold and the labels. *)
Definition completes_fit (f : SOS -> SOS) : Prop :=
  forall s, decision_scores_ (f s) = decision_scores_ s /\
            threshold_ (f s) <> None /\ labels_ (f s) <> None.

(** Two detectors with the same perplexity, metric and tolerance. *)
Definition same_configuration (s s' : SOS) : Prop :=
  perplexity s = perplexity s' /\ metric s = metric s' /\ eps s = eps s'.

(** The object [fit] hands to [_process_decision_scores]. *)
Definition with_scores (self : SOS) (O : vector) : SOS :=
  {| contamination := contamination self;
     perplexity := perplexity self;
     metric := metric self;
     eps := eps self;
     decision_scores_ := Some O;
     threshold_ := threshold_ self;
     labels_ := labels_ self |}.

(** A stand-in for [_process_decision_scores] in examples: it sets a
    threshold and labels and keeps everything else. *)
Definition mark_processed (self : SOS) : SOS :=
  {| contamination := contamination self;
     perplexity := perplexity self;
     metric := metric self;
     eps := eps self;
     decision_scores_ := decision_scores_ self;
     threshold_ := Some (Fin 0);
     labels_ := Some [] |}.

(** Two square matrices that agree off the diagonal. *)
Definition same_off_diagonal (n : nat) (D D' : matrix) : Prop :=
  forall i j, (i < n)%nat -> (j < n)%nat -> j <> i ->
    get2 D i j = get2 D' i j.

(** A square dissimilarity matrix of three samples that is not symmetric. *)
Definition D_3x3 : matrix :=
  [[Fin 0; Fin 1; Fin 2]; [Fin 4; Fin 0; Fin 1]; [Fin 2; Fin 7; Fin 0]].

(** ** Binary64 arithmetic

    The definitions above take a finite value as a real number.  The
    module [Binary64] embeds the same functions of [sos.py] on IEEE
    binary64 values, the numbers numpy computes on: Rocq's primitive
    floats, whose operations round to nearest even, overflow to an
    infinity and underflow to zero as the processor's do.

    - [np.exp] and [np.log] are library routines whose results are not
      fixed bit for bit by any standard; they are parameters, and a
      statement says what it assumes of them.
    - A sum or a product folds its terms from left to right, starting
      from 0 or 1.  numpy and numba do so for the rows of fewer than 8
      cells used in the concrete inputs below, and the feature matrices of
      these inputs have one feature, so that a dot product is one
      multiplication.  On longer rows numpy adds pairwise, and the BLAS
      routine behind [np.dot] may add in another order or fuse a
      multiplication with an addition. *)

Module Binary64.
Import Floats.
Local Open Scope float_scope.

(** Arrays, as above: a list, and the list of the rows. *)
Definition vector := list float.
Definition matrix := list (list float).

Definition nrows (M : matrix) : nat := length M.
Definition ncols (M : matrix) : nat := length (hd [] M).
Definition shape (M : matrix) : nat * nat := (nrows M, ncols M).

Definition rectangular (n d : nat) (M : matrix) : Prop :=
  length M = n /\ Forall (fun row => length row = d) M.

Definition get (v : vector) (j : nat) : float := nth j v 0.
Definition get2 (M : matrix) (i j : nat) : float := get (nth i M []) j.

Definition np_zeros (n m : nat) : matrix := repeat (repeat 0 m) n.
Definition np_ones (n : nat) : vector := repeat 1 n.

(** [np.sum(v)] and [np.prod(v)], [np.sum(M, 1)] and [np.prod(M, 0)]. *)
Definition np_sum (v : vector) : float := fold_left add v 0.
Definition np_prod (v : vector) : float := fold_left mul v 1.
Definition np_sum_axis1 (M : matrix) : vector := map np_sum M.
Definition np_prod_axis0 (M : matrix) : vector :=
  fold_left (map2 mul) M (np_ones (ncols M)).

(** Column [j] of [M], [M.T], [np.dot(X, Y)], [np.add(M, v)] with [v]
    broadcast over the rows, and a function applied to every cell. *)
Definition column (M : matrix) (j : nat) : vector :=
  map (fun row => get row j) M.
Definition transpose (d : nat) (M : matrix) : matrix :=
  map (column M) (seq 0 d).
Definition dot_vec (u v : vector) : float := np_sum (map2 mul u v).
Definition np_dot (m : nat) (X Y : matrix) : matrix :=
  map (fun x => map (fun j => dot_vec x (column Y j)) (seq 0 m)) X.
Definition add_rowvec (M : matrix) (v : vector) : matrix :=
  map (fun row => map2 add row v) M.
Definition mat_map (f : float -> float) (M : matrix) : matrix :=
  map (map f) M.

(** [v[idx]] and [v[idx] = w] for an index array. *)
Definition take (v : vector) (idx : list nat) : vector :=
  map (get v) idx.

Fixpoint put (v : vector) (idx : list nat) (w : vector) : vector :=
  match idx, w with
  | j :: idx', x :: w' => put (set v j x) idx' w'
  | _, _ => v
  end.

(** [np.square] at one cell. *)
Definition square (x : float) : float := x * x.

(** [np.sum(np.square(X), 1)] at one row. *)
Definition sq_norm (x : vector) : float := np_sum (map square x).

(** The cell of the Euclidean branch of [_x2d] at rows [xi] and [xj]:
    [np.sqrt(np.abs(np.add(np.add(-2 * np.dot(X, X.T), sumX).T, sumX)))]. *)
Definition euclidean_cell (xi xj : vector) : float :=
  sqrt (abs (((-2) * dot_vec xj xi + sq_norm xi) + sq_norm xj)).

(** [max(0, x)]. *)
Definition clamp (x : float) : float := if x <? 0 then 0 else x.

(** The Euclidean dissimilarity in the words of the specification,
    [sqrt(max(0, |x_i|^2 + |x_j|^2 - 2 x_i . x_j))], evaluated in
    binary64. *)
Definition euclidean_spec (xi xj : vector) : float :=
  sqrt (clamp ((sq_norm xi + sq_norm xj) - 2 * dot_vec xi xj)).

(** The detector, with binary64 attributes. *)
Record SOS : Type := {
  contamination : float;
  perplexity : float;
  metric : string;
  eps : float;
  decision_scores_ : option vector;
  threshold_ : option float;
  labels_ : option (list bool)
}.

Definition __init__ (contamination perplexity : float) (metric : string)
  (eps : float) : SOS :=
  {| contamination := contamination;
     perplexity := perplexity;
     metric := lower metric;
     eps := eps;
     decision_scores_ := None;
     threshold_ := None;
     labels_ := None |}.

(** The defaults of the constructor: [0.1], [4.5], ['euclidean'], [1e-5]. *)
Definition default_SOS : SOS :=
  __init__ 0x1.999999999999ap-4 4.5 "euclidean" 0x1.4f8b588e368f1p-17.

(** The variables of the [while] loop of one row. *)
Record calib : Type := {
  beta_i : float;
  betamin : float;
  betamax : float;
  H_i : float;
  thisA : vector;
  Hdiff : float;
  tries : Z
}.

(** The loop condition
    [(np.isnan(Hdiff) or np.abs(Hdiff) > self.eps) and tries < 5000]. *)
Definition off_target (eps : float) (s : calib) : bool :=
  is_nan (Hdiff s) || (eps <? abs (Hdiff s)).

Definition continue (eps : float) (s : calib) : bool :=
  off_target eps s && (tries s <? max_tries)%Z.

(** [b == np.inf or b == -np.inf]. *)
Definition unbounded (b : float) : bool :=
  (b =? infinity) || (b =? neg_infinity).

(** The three assignments to [beta[i]], [betamin] and [betamax] of one
    iteration. *)
Definition adjust (s : calib) : float * float * float :=
  if is_nan (Hdiff s) then
    (beta_i s / 10, betamin s, betamax s)
  else if 0 <? Hdiff s then
    let betamin' := beta_i s in
    if unbounded (betamax s)
    then (beta_i s * 2, betamin', betamax s)
    else ((beta_i s + betamax s) / 2, betamin', betamax s)
  else
    let betamax' := beta_i s in
    if unbounded (betamin s)
    then (beta_i s / 2, betamin s, betamax')
    else ((beta_i s + betamin s) / 2, betamin s, betamax').

Section Numpy.

(** [np.exp] and [np.log] on one binary64 value. *)
Variables np_exp np_log : float -> float.

(** [A = np.exp(-D * beta)], [sumA = np.sum(A)] and
    [H = np.log(sumA) + beta * np.sum(D * A) / sumA]. *)
Definition _get_perplexity (D : vector) (beta : float) : float * vector :=
  let A := map (fun d => np_exp (- d * beta)) D in
  let sumA := np_sum A in
  let H := np_log sumA + beta * np_sum (map2 mul D A) / sumA in
  (H, A).

(** One iteration of the loop body, and the state on entry to the loop. *)
Definition iteration (Di : vector) (logU : float) (s : calib) : calib :=
  let '(b, bmin, bmax) := adjust s in
  let (H, A) := _get_perplexity Di b in
  {| beta_i := b; betamin := bmin; betamax := bmax;
     H_i := H; thisA := A; Hdiff := H - logU; tries := tries s + 1 |}.

Definition entry (Di : vector) (logU beta : float) : calib :=
  let (H, A) := _get_perplexity Di beta in
  {| beta_i := beta; betamin := neg_infinity; betamax := infinity;
     H_i := H; thisA := A; Hdiff := H - logU; tries := 0 |}.

(** The [while] loop. *)
Function search (Di : vector) (logU eps : float) (s : calib)
  {measure (fun s => Z.to_nat (max_tries - tries s)) s} : calib :=
  if continue eps s then search Di logU eps (iteration Di logU s) else s.
Proof.
  intros Di logU eps s Hc. unfold continue in Hc.
  apply andb_prop in Hc as [_ Hc]. apply Z.ltb_lt in Hc.
  unfold iteration. destruct (adjust s) as [[b bmin] bmax].
  destruct (_get_perplexity Di b) as [H A]. cbn [tries]. lia.
Defined.

(** The body of [for i in range(n)], on the pair of the arrays [A] and
    [beta]. *)
Definition d2a_row (D : matrix) (n : nat) (logU eps : float)
  (st : matrix * vector) (i : nat) : matrix * vector :=
  let (A, beta) := st in
  let Di := take (nth i D []) (others i n) in
  let s := search Di logU eps (entry Di logU (get beta i)) in
  (set A i (put (nth i A []) (others i n) (thisA s)),
   set beta i (beta_i s)).

Definition _d2a (self : SOS) (D : matrix) : matrix :=
  let n := fst (shape D) in
  let A := np_zeros n n in
  let beta := np_ones n in
  let logU := np_log (perplexity self) in
  fst (fold_left (d2a_row D n logU (eps self)) (seq 0 n) (A, beta)).

(** The off-diagonal cells of row [i] of [D], the state in which the loop
    of row [i] ends, and the row of [A] it writes. *)
Definition off_diagonal (D : matrix) (n i : nat) : vector :=
  take (nth i D []) (others i n).

Definition row_state (D : matrix) (n : nat) (logU eps : float) (i : nat)
  : calib :=
  let Di := off_diagonal D n i in
  search Di logU eps (entry Di logU 1).

Definition affinity_row (D : matrix) (n : nat) (logU eps : float) (i : nat)
  : vector :=
  put (repeat 0 n) (others i n) (thisA (row_state D n logU eps i)).

(** The states of the calibration of one row. *)
Inductive visited (Di : vector) (logU eps : float) : calib -> Prop :=
| visited_entry : visited Di logU eps (entry Di logU 1)
| visited_iteration (s : calib) :
    visited Di logU eps s -> continue eps s = true ->
    visited Di logU eps (iteration Di logU s).

End Numpy.

Section Scipy.

(** [scipy.spatial.distance], when it can be imported. *)
Variable scipy_distance : option (string -> matrix -> exn + matrix).

Definition _x2d (self : SOS) (X : matrix) : exn + matrix :=
  let '(n, d) := shape X in
  if String.eqb (metric self) "none" then
    if negb (n =? d)%nat then inl (ValueError msg_not_square)
    else inr X
  else if String.eqb (metric self) "euclidean" then
    let sumX := np_sum_axis1 (mat_map square X) in
    let G := mat_map (mul (-2)) (np_dot n X (transpose d X)) in
    inr (mat_map sqrt
           (mat_map abs
              (add_rowvec (transpose n (add_rowvec G sumX)) sumX)))
  else
    match scipy_distance with
    | None => inl (ImportError msg_no_scipy)
    | Some dist => dist (metric self) X
    end.

End Scipy.

(** [A / A.sum(axis=1)[:, np.newaxis]] and [np.prod(1 - B, 0)]. *)
Definition _a2b (A : matrix) : matrix :=
  map2 (fun row s => map (fun a => a / s) row) A (np_sum_axis1 A).

Definition _b2o (B : matrix) : vector :=
  np_prod_axis0 (mat_map (sub 1) B).

(** A permutation of [n] samples is a list [pi] that holds each of
    [0 .. n-1] once; the permuted input has row [pi[a]] of [X] as its row
    [a], and a square matrix is permuted on both axes. *)
Definition permute_rows (pi : list nat) (X : matrix) : matrix :=
  map (fun k => nth k X []) pi.

Definition permute_vector (pi : list nat) (v : vector) : vector :=
  take v pi.

Definition permute_both (pi : list nat) (M : matrix) : matrix :=
  map (permute_vector pi) (permute_rows pi M).

(** ** Example data in binary64 *)

(** Two neighbouring integers whose squares are not binary64 numbers; the
    decimals 0.1 and 1.6; a finite value whose square overflows, twice. *)
Definition X_neighbours : matrix := [[187184173]; [187184174]].
Definition X_decimals : matrix :=
  [[0x1.999999999999ap-4]; [0x1.999999999999ap+0]].
Definition X_huge : matrix :=
  [[0x1.4e718d7d7625ap+664]; [0x1.4e718d7d7625ap+664]].

(** An affinity matrix with the rows [0.1, 0.2, 0.3] off the diagonal, and
    a finite matrix whose row sums overflow. *)
Definition A_tenths : matrix :=
  [[0; 0x1.999999999999ap-4; 0x1.999999999999ap-3; 0x1.3333333333333p-2];
   [0x1.999999999999ap-4; 0; 0x1.999999999999ap-3; 0x1.3333333333333p-2];
   [0x1.999999999999ap-4; 0x1.999999999999ap-3; 0; 0x1.3333333333333p-2];
   [0x1.999999999999ap-4; 0x1.999999999999ap-3; 0x1.3333333333333p-2; 0]].
Definition A_large : matrix :=
  [[0; 0x1p+1023; 0x1p+1023]; [0x1p+1023; 0; 0x1p+1023];
   [0x1p+1023; 0x1p+1023; 0]].

(** Four samples on a line, the exchange of the last two, and a detector
    whose tolerance accepts every entropy, so that no row is searched. *)
Definition X_line : matrix := [[0]; [1]; [2]; [4]].
Definition swap_last : list nat := [0%nat; 1%nat; 3%nat; 2%nat].
Definition SOS_any_entropy : SOS :=
  __init__ 0x1.999999999999ap-4 4.5 "euclidean" infinity.

(** [exp(-1)], [exp(-2)], [exp(-3)] and [exp(-4)] rounded to binary64. *)
Definition exp_m1 : float := 0x1.78b56362cef38p-2.
Definition exp_m2 : float := 0x1.152aaa3bf81ccp-3.
Definition exp_m3 : float := 0x1.97db0ccceb0afp-5.
Definition exp_m4 : float := 0x1.2c155b8213cf4p-6.

(** [np.exp] on the four arguments the example needs. *)
Definition exp_table (x : float) : float :=
  if Leibniz.eqb x (-1) then exp_m1
  else if Leibniz.eqb x (-2) then exp_m2
  else if Leibniz.eqb x (-3) then exp_m3
  else if Leibniz.eqb x (-4) then exp_m4
  else nan.

(** The kernel of a row at the precision 1, read from the table. *)
Definition table_kernel (Di : vector) : vector :=
  map (fun d => exp_table (- d * 1)) Di.

(** The affinity matrix when no row is searched: each row is the kernel at
    the precision 1, written off the diagonal. *)
Definition table_affinities (D : matrix) : matrix :=
  let n := length D in
  map (fun i => put (repeat 0 n) (others i n)
                  (table_kernel (off_diagonal D n i)))
      (seq 0 n).

(** Row [i] of [D] has a kernel whose sum is a positive number, and the
    second term of its entropy is a number. *)
Definition entropy_defined (D : matrix) (i : nat) : bool :=
  let Di := off_diagonal D (length D) i in
  let A := table_kernel Di in
  let s := np_sum A in
  is_finite s && (0 <? s) && is_finite (1 * np_sum (map2 mul Di A) / s).

(** The dissimilarities of [X_line] and of its permuted copy. *)
Definition D_line : matrix :=
  [[0; 1; 2; 4]; [1; 0; 1; 3]; [2; 1; 0; 2]; [4; 3; 2; 0]].
Definition D_line_swapped : matrix :=
  [[0; 1; 4; 2]; [1; 0; 3; 1]; [4; 3; 0; 2]; [2; 1; 2; 0]].

End Binary64.

(** A value of the given sign: a zero, a finite number or an infinity. *)
Definition signed (s : bool) (x : SpecFloat.spec_float) : Prop :=
  match x with
  | SpecFloat.S754_zero s' | SpecFloat.S754_infinity s'
  | SpecFloat.S754_finite s' _ _ => s' = s
  | SpecFloat.S754_nan => False
  end.

(** A value that is not NaN and not below zero: [0 <= x] holds. *)
Definition at_least_zero (x : SpecFloat.spec_float) : Prop :=
  match x with
  | SpecFloat.S754_zero _ => True
  | SpecFloat.S754_infinity s | SpecFloat.S754_finite s _ _ => s = false
  | SpecFloat.S754_nan => False
  end.

(** What holds of the three bounds in every state of the calibration of a
    row in binary64: the precision is not NaN and not negative, and each
    stored bound is the infinity it started as or an earlier precision. *)
Definition bounds_inv (s : Binary64.calib) : Prop :=
  PrimFloat.leb PrimFloat.zero (Binary64.beta_i s) = true /\
  (Binary64.betamin s = PrimFloat.neg_infinity \/
   PrimFloat.leb PrimFloat.zero (Binary64.betamin s) = true) /\
  (Binary64.betamax s = PrimFloat.infinity \/
   PrimFloat.leb PrimFloat.zero (Binary64.betamax s) = true).

(** The value of a finite binary64 number times [2^k], an integer when
    [k] is large enough; it serves to add binary64 numbers exactly. *)
Definition scaled (k : Z) (x : PrimFloat.float) : Z :=
  match FloatOps.Prim2SF x with
  | SpecFloat.S754_finite s m e =>
      ((if s then Z.neg m else Z.pos m) * 2 ^ (e + k))%Z
  | _ => 0%Z
  end.

(** The checks a precision [b] passes when the only dissimilarity of a row
    is zero: the argument of [np.exp] is [-0] and the second term of the
    entropy is [0]. *)
Definition zero_row_precision (b : PrimFloat.float) : bool :=
  (PrimFloat.Leibniz.eqb
     (PrimFloat.mul (PrimFloat.opp PrimFloat.zero) b) PrimFloat.neg_zero &&
   PrimFloat.Leibniz.eqb
     (PrimFloat.div
        (PrimFloat.mul b
           (PrimFloat.add PrimFloat.zero
              (PrimFloat.mul PrimFloat.zero PrimFloat.one)))
        PrimFloat.one)
     PrimFloat.zero)%bool.

(** [zero_row_precision] on [b], [b / 2], [b / 4], ..., [n] values. *)
Fixpoint halvings_pass (n : nat) (b : PrimFloat.float) : bool :=
  match n with
  | O => true
  | S n' => zero_row_precision b && halvings_pass n' (PrimFloat.div b PrimFloat.two)
  end.

(** The precision after [k] halvings of 1. *)
Definition halved (k : nat) : PrimFloat.float :=
  Nat.iter k (fun b => PrimFloat.div b PrimFloat.two) PrimFloat.one.

(** The state of the calibration of the row [[0]] after [k] iterations,
    when the target [logU] is above the entropy 0 of the row. *)
Definition halving_state (logU : PrimFloat.float) (k : nat)
  : Binary64.calib :=
  {| Binary64.beta_i := halved k;
     Binary64.betamin := PrimFloat.neg_infinity;
     Binary64.betamax :=
       match k with O => PrimFloat.infinity | S j => halved j end;
     Binary64.H_i := PrimFloat.zero;
     Binary64.thisA := [PrimFloat.one];
     Binary64.Hdiff := PrimFloat.sub PrimFloat.zero logU;
     Binary64.tries := Z.of_nat k |}.

(* ===================================================================== *)
(** * Part II.  Properties *)
(* ===================================================================== *)

(** ** Lists and arrays *)

Lemma map2_length {A B C : Type} (f : A -> B -> C) (l : list A) (l' : list B) :
  length (map2 f l l') = Nat.min (length l) (length l').
Proof.
  revert l'; induction l as [|a l IH]; intros [|b l']; simpl; auto.
Qed.

Lemma get_cons_S (x : float) (v : vector) (j : nat) :
  get (x :: v) (S j) = get v j.
Proof. reflexivity. Qed.

Lemma get_map2 (f : float -> float -> float) (u v : vector) (j : nat) :
  (j < length u)%nat -> (j < length v)%nat ->
  get (map2 f u v) j = f (get u j) (get v j).
Proof.
  revert v j; induction u as [|a u IH]; intros [|b v] [|j]; simpl;
    intros Hu Hv; try lia; try reflexivity.
  rewrite !get_cons_S. apply IH; lia.
Qed.

Lemma get_map (f : float -> float) (v : vector) (j : nat) :
  (j < length v)%nat -> get (map f v) j = f (get v j).
Proof.
  intros Hj. unfold get.
  rewrite (nth_indep _ (Fin 0) (f (Fin 0))) by (rewrite length_map; exact Hj).
  apply map_nth.
Qed.

Lemma get_repeat (x : float) (n j : nat) :
  (j < n)%nat -> get (repeat x n) j = x.
Proof.
  intros Hj. unfold get. apply nth_repeat_lt. exact Hj.
Qed.

Lemma rectangular_row (n d : nat) (M : matrix) (i : nat) :
  rectangular n d M -> (i < n)%nat -> length (nth i M []) = d.
Proof.
  intros [Hn HM] Hi. rewrite Forall_forall in HM.
  apply HM, nth_In. lia.
Qed.

Lemma rectangular_ncols (n d : nat) (M : matrix) :
  rectangular n d M -> (0 < n)%nat -> ncols M = d.
Proof.
  intros [Hn HM] Hpos. unfold ncols. destruct M as [|r M]; simpl in *.
  - lia.
  - inversion HM; assumption.
Qed.

(** Folding the rows of a matrix into an accumulator row multiplies each
    cell of the accumulator by its column. *)
Lemma fold_rows_get (m : nat) (M : matrix) (acc : vector) (j : nat) :
  Forall (fun row => length row = m) M -> length acc = m -> (j < m)%nat ->
  length (fold_left (map2 fmul) M acc) = m /\
  get (fold_left (map2 fmul) M acc) j = fold_left fmul (column M j) (get acc j).
Proof.
  revert acc; induction M as [|row M IH]; intros acc HM Hacc Hj; simpl.
  - split; [assumption | reflexivity].
  - apply Forall_cons_iff in HM as [Hrow HM'].
    assert (Hlen : length (map2 fmul acc row) = m).
    { rewrite map2_length, Hacc, Hrow. apply Nat.min_id. }
    destruct (IH (map2 fmul acc row) HM' Hlen Hj) as [IHl IHg].
    split; [exact IHl |].
    rewrite IHg, get_map2 by lia. reflexivity.
Qed.

(** ** Aggregation: [_b2o] *)

Lemma in_unit_one_minus (x : float) : in_unit x -> in_unit (fsub (Fin 1) x).
Proof.
  intros [r [-> Hr]]. exists (1 + - r). split; [reflexivity | lra].
Qed.

Lemma in_unit_mul (x y : float) : in_unit x -> in_unit y -> in_unit (fmul x y).
Proof.
  intros [a [-> Ha]] [b [-> Hb]]. exists (a * b). split; [reflexivity | nra].
Qed.

Lemma in_unit_fold_mul (l : vector) (acc : float) :
  Forall in_unit l -> in_unit acc -> in_unit (fold_left fmul l acc).
Proof.
  revert acc; induction l as [|x l IH]; intros acc Hl Hacc; simpl.
  - exact Hacc.
  - apply Forall_cons_iff in Hl as [Hx Hl].
    apply IH; [exact Hl | apply in_unit_mul; assumption].
Qed.

Lemma column_one_minus (n : nat) (B : matrix) (j : nat) :
  Forall (fun row => length row = n) B -> (j < n)%nat ->
  column (mat_map (fsub (Fin 1)) B) j =
  map (fun row => fsub (Fin 1) (get row j)) B.
Proof.
  intros HB Hj. unfold column, mat_map. rewrite map_map.
  apply map_ext_in. intros row Hrow.
  rewrite Forall_forall in HB. apply get_map. rewrite (HB row Hrow). exact Hj.
Qed.

Lemma b2o_cell (n : nat) (B : matrix) (j : nat) :
  rectangular n n B -> (j < n)%nat ->
  length (_b2o B) = n /\
  get (_b2o B) j = np_prod (map (fun row => fsub (Fin 1) (get row j)) B).
Proof.
  intros HB Hj. pose proof HB as [Hn Hrows].
  assert (HB' : rectangular n n (mat_map (fsub (Fin 1)) B)).
  { split; unfold mat_map; [rewrite length_map; exact Hn |].
    rewrite Forall_map. eapply Forall_impl; [| exact Hrows].
    intros row Hr. simpl. rewrite length_map. exact Hr. }
  unfold _b2o, np_prod_axis0, np_prod.
  rewrite (rectangular_ncols n n) by (try exact HB'; lia).
  destruct (fold_rows_get n (mat_map (fsub (Fin 1)) B) (np_ones n) j)
    as [Hl Hg]; auto.
  - apply HB'.
  - unfold np_ones. apply repeat_length.
  - split; [exact Hl |].
    rewrite Hg. unfold np_ones. rewrite get_repeat by exact Hj.
    rewrite (column_one_minus n) by assumption. reflexivity.
Qed.

Lemma b2o_length (n : nat) (B : matrix) :
  rectangular n n B -> length (_b2o B) = n.
Proof.
  intros HB. destruct n as [|n'].
  - destruct HB as [Hn _]. apply length_zero_iff_nil in Hn. subst B.
    reflexivity.
  - apply (b2o_cell (S n') B O HB). lia.
Qed.

(** C1.  For an [n] by [n] matrix [B], [_b2o B] has one score per column,
    and the score of column [j] is the product over all rows [i] (the row
    [i = j] included) of [1 - B[i,j]]; when every cell of [B] is finite and
    in [[0, 1]], so is every score. *)
Theorem b2o_column_product (n : nat) (B : matrix) :
  rectangular n n B ->
  length (_b2o B) = n /\
  (forall j, (j < n)%nat ->
     get (_b2o B) j = np_prod (map (fun row => fsub (Fin 1) (get row j)) B)) /\
  (cells n n in_unit B ->
   forall j, (j < n)%nat -> in_unit (get (_b2o B) j)).
Proof.
  intros HB. split; [apply b2o_length; exact HB | split].
  - intros j Hj. apply (b2o_cell n B j HB Hj).
  - intros Hunit j Hj. destruct (b2o_cell n B j HB Hj) as [_ ->].
    unfold np_prod. apply in_unit_fold_mul.
    + rewrite Forall_map. rewrite Forall_forall. intros row Hrow.
      apply in_unit_one_minus.
      destruct (In_nth B row [] Hrow) as [i [Hi <-]].
      destruct HB as [Hn _]. apply (Hunit i j); lia.
    + exists 1. split; [reflexivity | lra].
Qed.

Lemma B_example_cells : cells 2 2 in_unit B_example.
Proof.
  intros [|[|i]] [|[|j]] Hi Hj; try lia; unfold get2, get; simpl;
    eexists; (split; [reflexivity | lra]).
Qed.

Lemma b2o_column_product_witness :
  rectangular 2 2 B_example /\
  in_unit (get (_b2o B_example) 1) /\
  get (_b2o B_example) 1 =
  np_prod (map (fun row => fsub (Fin 1) (get row 1)) B_example).
Proof.
  assert (HB : rectangular 2 2 B_example) by (split; repeat constructor).
  destruct (b2o_column_product 2 B_example HB) as [_ [Hprod Hunit]].
  split; [exact HB | split].
  - apply (Hunit B_example_cells 1%nat). lia.
  - apply (Hprod 1%nat). lia.
Defined.

(** ** Comparisons of reals as booleans *)

Lemma Rltb_true (a b : R) : a < b -> Rltb a b = true.
Proof. intros Hab. unfold Rltb. destruct (Rlt_dec a b); [reflexivity | lra]. Qed.

Lemma Rltb_false (a b : R) : b <= a -> Rltb a b = false.
Proof. intros Hab. unfold Rltb. destruct (Rlt_dec a b); [lra | reflexivity]. Qed.

Lemma Rltb_spec (a b : R) : Rltb a b = true <-> a < b.
Proof. unfold Rltb. destruct (Rlt_dec a b); split; intros; auto; discriminate. Qed.

Lemma Reqb_true (a b : R) : a = b -> Reqb a b = true.
Proof. intros Hab. unfold Reqb. destruct (Req_dec_T a b); [reflexivity | lra]. Qed.

Lemma Reqb_false (a b : R) : a <> b -> Reqb a b = false.
Proof.
  intros Hab. unfold Reqb. destruct (Req_dec_T a b); [contradiction | reflexivity].
Qed.

(** ** The calibration loop *)

Lemma iteration_fields (Di : vector) (logU : float) (s : calib) :
  let s' := iteration Di logU s in
  (beta_i s', betamin s', betamax s') = adjust s /\
  (H_i s', thisA s') = _get_perplexity Di (beta_i s') /\
  Hdiff s' = fsub (H_i s') logU /\
  tries s' = (tries s + 1)%Z.
Proof.
  unfold iteration. destruct (adjust s) as [[b bmin] bmax].
  destruct (_get_perplexity Di b) as [H A] eqn:E. cbn. auto.
Qed.

(** In the last branch of an iteration the entropy is below the target,
    when the tolerance is not negative. *)
Lemma below_target (eps : float) (s : calib) :
  off_target eps s = true -> fltb eps (Fin 0) = false ->
  isnan (Hdiff s) = false -> fgtb (Hdiff s) (Fin 0) = false ->
  fltb (Hdiff s) (Fin 0) = true.
Proof.
  unfold off_target, fgtb. intros Hoff Heps Hnan Hgt.
  rewrite Hnan in Hoff. simpl in Hoff.
  destruct (Hdiff s) as [| | |h]; simpl in *; try discriminate; auto.
  destruct eps as [| | |e]; simpl in *; try discriminate.
  apply Rltb_spec in Hoff. apply Rltb_true.
  destruct (Rlt_dec e 0) as [He|He]; [rewrite (Rltb_true _ _ He) in Heps; discriminate|].
  destruct (Rlt_dec 0 h) as [Hh|Hh]; [rewrite (Rltb_true _ _ Hh) in Hgt; discriminate|].
  destruct (Req_dec_T h 0) as [->|Hne]; [rewrite Rabs_R0 in Hoff; lra | lra].
Qed.

(** C3.  One iteration of the calibration loop, entered while [Hdiff] is
    NaN or [|Hdiff| > eps]: a NaN [Hdiff] divides [beta_i] by 10 and keeps
    both bounds; a positive [Hdiff] stores [beta_i] in [betamin] and doubles
    [beta_i] while [betamax] is unbounded, else takes the mean with
    [betamax]; otherwise ([Hdiff < 0] for a tolerance that is not negative)
    [beta_i] is stored in [betamax] and halved while [betamin] is
    unbounded, else averaged with [betamin]; entropy, kernel and [Hdiff]
    are then recomputed from the new [beta_i]. *)
Theorem calibration_iteration (Di : vector) (logU eps : float) (s : calib) :
  continue eps s = true ->
  let s' := iteration Di logU s in
  (isnan (Hdiff s) = true ->
     beta_i s' = fdiv (beta_i s) (Fin 10) /\
     betamin s' = betamin s /\ betamax s' = betamax s) /\
  (isnan (Hdiff s) = false -> fgtb (Hdiff s) (Fin 0) = true ->
     betamin s' = beta_i s /\ betamax s' = betamax s /\
     beta_i s' = if unbounded (betamax s)
                 then fmul (beta_i s) (Fin 2)
                 else fdiv (fadd (beta_i s) (betamax s)) (Fin 2)) /\
  (isnan (Hdiff s) = false -> fgtb (Hdiff s) (Fin 0) = false ->
     (fltb eps (Fin 0) = false -> fltb (Hdiff s) (Fin 0) = true) /\
     betamax s' = beta_i s /\ betamin s' = betamin s /\
     beta_i s' = if unbounded (betamin s)
                 then fdiv (beta_i s) (Fin 2)
                 else fdiv (fadd (beta_i s) (betamin s)) (Fin 2)) /\
  (H_i s', thisA s') = _get_perplexity Di (beta_i s') /\
  Hdiff s' = fsub (H_i s') logU /\
  tries s' = (tries s + 1)%Z.
Proof.
  intros Hc s'.
  destruct (iteration_fields Di logU s) as [Hadj [Hperp [Hd Ht]]].
  fold s' in Hadj, Hperp, Hd, Ht.
  apply andb_prop in Hc as [Hoff _].
  unfold adjust in Hadj.
  split; [| split; [| split; [| auto]]].
  - intros Hnan. rewrite Hnan in Hadj. repeat split; congruence.
  - intros Hnan Hgt. rewrite Hnan, Hgt in Hadj.
    destruct (unbounded (betamax s)); repeat split; congruence.
  - intros Hnan Hgt. rewrite Hnan, Hgt in Hadj.
    split; [intros Heps; apply (below_target eps); assumption |].
    destruct (unbounded (betamin s)); repeat split; congruence.
Qed.

Lemma calibration_iteration_witness :
  continue default_eps too_flat = true /\
  betamin (iteration [Fin 0] (Fin 1) too_flat) = Fin 1 /\
  betamax (iteration [Fin 0] (Fin 1) too_flat) = PInf /\
  beta_i (iteration [Fin 0] (Fin 1) too_flat) = fmul (Fin 1) (Fin 2).
Proof.
  assert (Hc : continue default_eps too_flat = true).
  { unfold continue, off_target, fgtb, default_eps, too_flat. cbn.
    rewrite Rltb_true; [reflexivity |].
    rewrite Rabs_R1. lra. }
  split; [exact Hc |].
  destruct (calibration_iteration [Fin 0] (Fin 1) default_eps too_flat Hc)
    as [_ [Hpos _]].
  apply Hpos; [reflexivity |].
  unfold fgtb, too_flat. cbn. apply Rltb_true. lra.
Defined.

Lemma fdiv_fin (a b : R) : b <> 0 -> fdiv (Fin a) (Fin b) = Fin (a / b).
Proof. intros Hb. simpl. rewrite (Reqb_false _ _ Hb). reflexivity. Qed.

Lemma perplexity_kernel_length (Di : vector) (beta : float) :
  length (snd (_get_perplexity Di beta)) = length Di.
Proof. unfold _get_perplexity. simpl. apply length_map. Qed.

Lemma positive_unbounded (b : float) : positive b -> unbounded b = false.
Proof. intros [r [-> _]]. reflexivity. Qed.

Lemma adjust_positive (s : calib) :
  positive (beta_i s) ->
  (betamin s = NInf \/ positive (betamin s)) ->
  (betamax s = PInf \/ positive (betamax s)) ->
  let '(b, bmin, bmax) := adjust s in
  positive b /\ (bmin = NInf \/ positive bmin) /\ (bmax = PInf \/ positive bmax).
Proof.
  intros Hb Hmin Hmax. unfold adjust.
  destruct Hb as [r [Er Hr]]. rewrite Er.
  assert (Hpos : positive (Fin r)) by (exists r; auto).
  destruct (isnan (Hdiff s)).
  - rewrite fdiv_fin by lra. repeat split; auto. exists (r / 10); split; [reflexivity | lra].
  - destruct (fgtb (Hdiff s) (Fin 0)).
    + destruct Hmax as [Emax | Hmax'].
      * rewrite Emax. cbn. repeat split; auto.
        exists (r * 2); split; [reflexivity | lra].
      * rewrite (positive_unbounded _ Hmax').
        destruct Hmax' as [m [Em Hm]]. rewrite Em. cbn [fadd].
        rewrite fdiv_fin by lra. repeat split; auto.
        -- exists ((r + m) / 2); split; [reflexivity | lra].
        -- right. exists m; auto.
    + destruct Hmin as [Emin | Hmin'].
      * rewrite Emin. cbn [unbounded feqb orb]. rewrite fdiv_fin by lra.
        repeat split; auto. exists (r / 2); split; [reflexivity | lra].
      * rewrite (positive_unbounded _ Hmin').
        destruct Hmin' as [m [Em Hm]]. rewrite Em. cbn [fadd].
        rewrite fdiv_fin by lra. repeat split; auto.
        -- exists ((r + m) / 2); split; [reflexivity | lra].
        -- right. exists m; auto.
Qed.

Lemma entry_inv (Di : vector) (logU : float) :
  calib_inv Di (entry Di logU (Fin 1)).
Proof.
  unfold calib_inv, entry.
  destruct (_get_perplexity Di (Fin 1)) as [H A] eqn:E.
  cbn [beta_i betamin betamax thisA tries].
  repeat split; auto.
  - exists 1; split; [reflexivity | lra].
  - rewrite E. reflexivity.
  - lia.
  - unfold max_tries; lia.
Qed.

Lemma iteration_inv (Di : vector) (logU eps : float) (s : calib) :
  calib_inv Di s -> continue eps s = true ->
  calib_inv Di (iteration Di logU s).
Proof.
  intros [Hb [Hmin [Hmax [_ Ht]]]] Hc.
  apply andb_prop in Hc as [_ Hlt]. apply Z.ltb_lt in Hlt.
  pose proof (adjust_positive s Hb Hmin Hmax) as Hadj.
  unfold calib_inv, iteration.
  destruct (adjust s) as [[b bmin] bmax].
  destruct (_get_perplexity Di b) as [H A] eqn:E.
  cbn [beta_i betamin betamax thisA tries].
  destruct Hadj as [Hb' [Hmin' Hmax']].
  repeat split; auto; try lia.
  rewrite E. reflexivity.
Qed.

Lemma visited_inv (Di : vector) (logU eps : float) (s : calib) :
  visited Di logU eps s -> calib_inv Di s.
Proof.
  induction 1 as [|s Hs IH Hc].
  - apply entry_inv.
  - apply (iteration_inv Di logU eps); assumption.
Qed.

(** The loop ends in a state it has visited, in which its condition is
    false. *)
Lemma search_visited (Di : vector) (logU eps : float) (s : calib) :
  visited Di logU eps s ->
  visited Di logU eps (search Di logU eps s) /\
  continue eps (search Di logU eps s) = false.
Proof.
  functional induction (search Di logU eps s) as [s Hc IH | s Hc]; intros Hs.
  - apply IH. apply visited_iteration; assumption.
  - split; [exact Hs | exact Hc].
Qed.

(** ** Writing a row of the affinity matrix *)

Lemma set_length {T : Type} (v : list T) (j : nat) (x : T) :
  length (set v j x) = length v.
Proof.
  revert j; induction v as [|h v IH]; intros [|j]; simpl; auto.
Qed.

Lemma nth_set_same {T : Type} (v : list T) (j : nat) (x d : T) :
  (j < length v)%nat -> nth j (set v j x) d = x.
Proof.
  revert j; induction v as [|h v IH]; intros [|j]; simpl; intros Hj;
    try lia; auto. apply IH. lia.
Qed.

Lemma nth_set_other {T : Type} (v : list T) (j k : nat) (x d : T) :
  j <> k -> nth k (set v j x) d = nth k v d.
Proof.
  revert j k; induction v as [|h v IH]; intros [|j] [|k]; simpl; intros Hjk;
    try lia; auto.
Qed.

Lemma put_length (v : vector) (idx : list nat) (w : vector) :
  length (put v idx w) = length v.
Proof.
  revert v w; induction idx as [|j idx IH]; intros v [|x w]; simpl; auto.
  rewrite IH. apply set_length.
Qed.

Lemma get_put_notin (v : vector) (idx : list nat) (w : vector) (j : nat) :
  ~ In j idx -> get (put v idx w) j = get v j.
Proof.
  revert v w; induction idx as [|k idx IH]; intros v [|x w] Hj; simpl; auto.
  rewrite IH by (intros Hin; apply Hj; right; exact Hin).
  unfold get. apply nth_set_other. intros ->. apply Hj. left. reflexivity.
Qed.

Lemma get_put_nth (v : vector) (idx : list nat) (w : vector) (k : nat) :
  NoDup idx -> (k < length idx)%nat -> (k < length w)%nat ->
  (nth k idx O < length v)%nat ->
  get (put v idx w) (nth k idx O) = get w k.
Proof.
  revert v w k; induction idx as [|j idx IH]; intros v [|x w] k Hnd Hk Hw Hv;
    simpl in *; try lia.
  apply NoDup_cons_iff in Hnd as [Hj Hnd].
  destruct k as [|k].
  - rewrite get_put_notin by exact Hj. unfold get. apply nth_set_same. exact Hv.
  - rewrite IH; auto; try lia. rewrite set_length. exact Hv.
Qed.

Lemma others_length (i n : nat) :
  (i < n)%nat -> length (others i n) = (n - 1)%nat.
Proof.
  intros Hi. unfold others. rewrite length_app, !length_seq. lia.
Qed.

Lemma others_in (i n j : nat) :
  (i < n)%nat -> In j (others i n) <-> (j < n /\ j <> i)%nat.
Proof.
  intros Hi. unfold others. rewrite in_app_iff, !in_seq. lia.
Qed.

Lemma others_NoDup (i n : nat) : NoDup (others i n).
Proof.
  unfold others. apply NoDup_app; try apply seq_NoDup.
  intros a. rewrite !in_seq. lia.
Qed.

(** Position [k] of the index array of row [i] is column [k] before the
    diagonal and column [k + 1] after it. *)
Lemma others_nth (i n k : nat) :
  (i < n)%nat -> (k < n - 1)%nat ->
  nth k (others i n) O = if (k <? i)%nat then k else S k.
Proof.
  intros Hi Hk. unfold others.
  destruct (k <? i)%nat eqn:E.
  - apply Nat.ltb_lt in E. rewrite app_nth1 by (rewrite length_seq; lia).
    rewrite seq_nth by lia. lia.
  - apply Nat.ltb_ge in E. rewrite app_nth2 by (rewrite length_seq; lia).
    rewrite length_seq, seq_nth by lia. lia.
Qed.

Lemma others_position (i n j : nat) :
  (i < n)%nat -> (j < n)%nat -> j <> i ->
  (position i j < n - 1)%nat /\ nth (position i j) (others i n) O = j.
Proof.
  intros Hi Hj Hne. unfold position.
  destruct (j <? i)%nat eqn:E.
  - apply Nat.ltb_lt in E. split; [lia |].
    rewrite others_nth by lia. apply Nat.ltb_lt in E. rewrite E. reflexivity.
  - apply Nat.ltb_ge in E. split; [lia |].
    rewrite others_nth by lia.
    assert (E' : (j - 1 <? i)%nat = false) by (apply Nat.ltb_ge; lia).
    rewrite E'. lia.
Qed.

Lemma get_put_others (n i j : nat) (v w : vector) :
  (i < n)%nat -> (j < n)%nat -> length v = n -> length w = (n - 1)%nat ->
  get (put v (others i n) w) j =
  if (j =? i)%nat then get v i else get w (position i j).
Proof.
  intros Hi Hj Hv Hw. destruct (j =? i)%nat eqn:E.
  - apply Nat.eqb_eq in E. subst j. apply get_put_notin.
    rewrite others_in by exact Hi. lia.
  - apply Nat.eqb_neq in E.
    destruct (others_position i n j Hi Hj E) as [Hp Hn].
    rewrite <- Hn at 1. apply get_put_nth.
    + apply others_NoDup.
    + rewrite others_length by exact Hi. exact Hp.
    + lia.
    + rewrite Hn. lia.
Qed.

(** Reading a row back at the index array returns what was written. *)
Lemma take_put_others (n i : nat) (v w : vector) :
  (i < n)%nat -> length v = n -> length w = (n - 1)%nat ->
  take (put v (others i n) w) (others i n) = w.
Proof.
  intros Hi Hv Hw. apply (nth_ext _ _ (Fin 0) (Fin 0)).
  - unfold take. rewrite length_map, others_length by exact Hi. lia.
  - intros k Hk. unfold take in *. rewrite length_map in Hk.
    rewrite others_length in Hk by exact Hi.
    rewrite (nth_indep _ (Fin 0) (get (put v (others i n) w) O))
      by (rewrite length_map, others_length by exact Hi; exact Hk).
    rewrite map_nth. apply get_put_nth.
    + apply others_NoDup.
    + rewrite others_length by exact Hi. exact Hk.
    + lia.
    + rewrite others_nth by assumption. destruct (k <? i)%nat; lia.
Qed.

(** ** The loop over the rows *)

Lemma set_map_seq {T : Type} (f : nat -> T) (a n k : nat) (x : T) :
  (k < n)%nat ->
  set (map f (seq a n)) k x =
  map (fun i => if (i =? a + k)%nat then x else f i) (seq a n).
Proof.
  revert a k; induction n as [|n IH]; intros a k Hk; [lia |].
  destruct k as [|k]; simpl.
  - rewrite Nat.add_0_r, Nat.eqb_refl. f_equal.
    apply map_ext_in. intros i Hi. apply in_seq in Hi.
    destruct (Nat.eqb_spec i a); [lia | reflexivity].
  - destruct (Nat.eqb_spec a (a + S k)); [lia |]. f_equal.
    rewrite IH by lia. apply map_ext. intros i.
    replace (S a + k)%nat with (a + S k)%nat by lia. reflexivity.
Qed.

Lemma nth_map_seq {T : Type} (f : nat -> T) (n k : nat) (d : T) :
  (k < n)%nat -> nth k (map f (seq 0 n)) d = f k.
Proof.
  intros Hk. rewrite (nth_indep _ d (f O)) by (rewrite length_map, length_seq; exact Hk).
  rewrite map_nth, seq_nth by exact Hk. reflexivity.
Qed.

Lemma repeat_map_seq {T : Type} (x : T) (n : nat) :
  repeat x n = map (fun _ => x) (seq 0 n).
Proof.
  generalize O. induction n as [|n IH]; intros a; simpl; [reflexivity |].
  f_equal. apply IH.
Qed.

Lemma d2a_fold (D : matrix) (n : nat) (logU eps : float) (k : nat) :
  (k <= n)%nat ->
  fold_left (d2a_row D n logU eps) (seq 0 k) (np_zeros n n, np_ones n) =
  (map (fun i => if (i <? k)%nat then affinity_row D n logU eps i
                 else repeat (Fin 0) n) (seq 0 n),
   map (fun i => if (i <? k)%nat then beta_i (row_state D n logU eps i)
                 else Fin 1) (seq 0 n)).
Proof.
  induction k as [|k IH]; intros Hk.
  - simpl. unfold np_zeros, np_ones. rewrite !repeat_map_seq. reflexivity.
  - rewrite seq_S, fold_left_app, IH by lia. simpl.
    unfold get. rewrite !nth_map_seq by lia. rewrite Nat.ltb_irrefl.
    fold (off_diagonal D n k). fold (row_state D n logU eps k).
    fold (affinity_row D n logU eps k).
    rewrite !set_map_seq by lia. simpl. f_equal.
    + apply map_ext. intros i.
      destruct (Nat.eqb_spec i k) as [->|Hne].
      * assert (E : (k <? S k)%nat = true) by (apply Nat.ltb_lt; lia).
        rewrite E. reflexivity.
      * destruct (Nat.ltb_spec i k), (Nat.ltb_spec i (S k)); auto; lia.
    + apply map_ext. intros i.
      destruct (Nat.eqb_spec i k) as [->|Hne].
      * assert (E : (k <? S k)%nat = true) by (apply Nat.ltb_lt; lia).
        rewrite E. reflexivity.
      * destruct (Nat.ltb_spec i k), (Nat.ltb_spec i (S k)); auto; lia.
Qed.

(** [_d2a] row by row. *)
Lemma d2a_rows (self : SOS) (D : matrix) :
  let n := length D in
  _d2a self D =
  map (affinity_row D n (flog (perplexity self)) (eps self)) (seq 0 n).
Proof.
  intros n. unfold _d2a, shape, nrows. simpl fst. fold n.
  rewrite d2a_fold by lia. simpl. apply map_ext_in.
  intros i Hi. apply in_seq in Hi.
  assert (E : (i <? n)%nat = true) by (apply Nat.ltb_lt; lia).
  rewrite E. reflexivity.
Qed.

Lemma visited_after (Di : vector) (logU eps : float) (s : calib) :
  visited Di logU eps s ->
  exists k : nat,
    s = after Di logU k /\ tries s = Z.of_nat k /\
    forall j, (j < k)%nat -> continue eps (after Di logU j) = true.
Proof.
  induction 1 as [|s Hs [k [Es [Et Hk]]] Hc].
  - exists O. split; [reflexivity | split].
    + unfold entry. destruct (_get_perplexity Di (Fin 1)). reflexivity.
    + intros j Hj. lia.
  - exists (S k). split; [| split].
    + unfold after in *. simpl. rewrite <- Es. reflexivity.
    + destruct (iteration_fields Di logU s) as [_ [_ [_ Ht]]].
      rewrite Ht, Et. lia.
    + intros j Hj. destruct (Nat.eq_dec j k) as [->|Hne].
      * rewrite <- Es. exact Hc.
      * apply Hk. lia.
Qed.

(** The calibration of a row: it runs a number [k] of iterations, at most
    [max_tries], and stops in a state where the loop condition is false. *)
Lemma row_state_after (D : matrix) (n : nat) (logU eps : float) (i : nat) :
  let Di := off_diagonal D n i in
  exists k : nat,
    (Z.of_nat k <= max_tries)%Z /\
    row_state D n logU eps i = after Di logU k /\
    tries (after Di logU k) = Z.of_nat k /\
    (forall j, (j < k)%nat -> continue eps (after Di logU j) = true) /\
    continue eps (after Di logU k) = false /\
    thisA (after Di logU k) =
      snd (_get_perplexity Di (beta_i (after Di logU k))).
Proof.
  intros Di. unfold row_state. fold Di.
  destruct (search_visited Di logU eps (entry Di logU (Fin 1))
              (visited_entry Di logU eps)) as [Hv Hstop].
  destruct (visited_after Di logU eps _ Hv) as [k [Es [Et Hk]]].
  destruct (visited_inv Di logU eps _ Hv) as [_ [_ [_ [HA Ht]]]].
  exists k. rewrite <- Es. repeat split; auto. lia.
Qed.

Lemma affinity_row_length (D : matrix) (n : nat) (logU eps : float) (i : nat) :
  length (affinity_row D n logU eps i) = n.
Proof. unfold affinity_row. rewrite put_length. apply repeat_length. Qed.

Lemma row_state_kernel_length (D : matrix) (n : nat) (logU eps : float)
  (i : nat) :
  (i < n)%nat -> length (thisA (row_state D n logU eps i)) = (n - 1)%nat.
Proof.
  intros Hi.
  destruct (row_state_after D n logU eps i) as [k [_ [-> [_ [_ [_ ->]]]]]].
  rewrite perplexity_kernel_length. unfold off_diagonal, take.
  rewrite length_map. apply others_length. exact Hi.
Qed.

(** C4.  For an [n] by [n] dissimilarity matrix and any perplexity and
    tolerance, the calibration of each row [i] ends after a number [k] of
    iterations that is at most [max_tries = 5000]: the loop condition holds
    before each of them and fails after the last.  Whether or not the
    tolerance was reached, the kernel computed last is row [i] of [A] at
    the off-diagonal positions in column order, and [A[i,i] = 0]; [_d2a]
    returns an [n] by [n] matrix. *)
Theorem calibration_terminates (self : SOS) (n : nat) (D : matrix) :
  rectangular n n D ->
  let A := _d2a self D in
  let logU := flog (perplexity self) in
  rectangular n n A /\
  forall i, (i < n)%nat ->
    let Di := off_diagonal D n i in
    exists k : nat,
      (Z.of_nat k <= 5000)%Z /\
      (forall j, (j < k)%nat -> continue (eps self) (after Di logU j) = true) /\
      continue (eps self) (after Di logU k) = false /\
      tries (after Di logU k) = Z.of_nat k /\
      thisA (after Di logU k) =
        snd (_get_perplexity Di (beta_i (after Di logU k))) /\
      take (nth i A []) (others i n) = thisA (after Di logU k) /\
      get2 A i i = Fin 0.
Proof.
  intros [Hn _] A logU. unfold A. rewrite d2a_rows. rewrite Hn. fold logU.
  split.
  - split; [rewrite length_map; apply length_seq |].
    rewrite Forall_map, Forall_forall. intros i _.
    apply affinity_row_length.
  - intros i Hi. set (Di := off_diagonal D n i).
    destruct (row_state_after D n logU (eps self) i)
      as [k [Hk [Es [Et [Hrun [Hstop HA]]]]]].
    fold Di in Es, Et, Hrun, Hstop, HA.
    pose proof (row_state_kernel_length D n logU (eps self) i Hi) as Hlen.
    exists k. repeat split; auto.
    + rewrite nth_map_seq by exact Hi. unfold affinity_row.
      rewrite take_put_others; auto.
      * rewrite Es. reflexivity.
      * apply repeat_length.
    + unfold get2. rewrite nth_map_seq by exact Hi. unfold affinity_row.
      rewrite get_put_others; auto; [| apply repeat_length].
      rewrite Nat.eqb_refl. apply get_repeat. exact Hi.
Qed.

Lemma D_5x5_shape : rectangular 5 5 D_5x5.
Proof. split; [reflexivity | repeat constructor]. Qed.

Lemma calibration_terminates_witness :
  rectangular 5 5 D_5x5 /\
  rectangular 5 5 (_d2a SOS_perplexity_50 D_5x5) /\
  exists k : nat,
    (Z.of_nat k <= 5000)%Z /\
    take (nth 4 (_d2a SOS_perplexity_50 D_5x5) []) (others 4 5) =
    thisA (after (off_diagonal D_5x5 5 4) (flog (Fin 50)) k).
Proof.
  split; [exact D_5x5_shape |].
  destruct (calibration_terminates SOS_perplexity_50 5 D_5x5 D_5x5_shape)
    as [Hshape Hrows].
  split; [exact Hshape |].
  destruct (Hrows 4%nat) as [k [Hk [_ [_ [_ [_ [Hrow _]]]]]]]; [lia |].
  exists k. split; [exact Hk | exact Hrow].
Defined.

(** ** Shapes and cells of the array operations *)

Lemma rectangular_mat_map (n m : nat) (f : float -> float) (M : matrix) :
  rectangular n m M -> rectangular n m (mat_map f M).
Proof.
  intros [Hn HM]. split; unfold mat_map.
  - rewrite length_map. exact Hn.
  - rewrite Forall_map. eapply Forall_impl; [| exact HM].
    intros row Hr. simpl. rewrite length_map. exact Hr.
Qed.

Lemma rectangular_add_rowvec (n m : nat) (M : matrix) (v : vector) :
  rectangular n m M -> length v = m -> rectangular n m (add_rowvec M v).
Proof.
  intros [Hn HM] Hv. split; unfold add_rowvec.
  - rewrite length_map. exact Hn.
  - rewrite Forall_map. eapply Forall_impl; [| exact HM].
    intros row Hr. simpl. rewrite map2_length, Hr, Hv. apply Nat.min_id.
Qed.

Lemma rectangular_transpose (m : nat) (M : matrix) :
  rectangular m (length M) (transpose m M).
Proof.
  split; unfold transpose.
  - rewrite length_map. apply length_seq.
  - rewrite Forall_map, Forall_forall. intros j _. unfold column.
    apply length_map.
Qed.

Lemma rectangular_np_dot (m : nat) (X Y : matrix) :
  rectangular (length X) m (np_dot m X Y).
Proof.
  split; unfold np_dot.
  - apply length_map.
  - rewrite Forall_map, Forall_forall. intros x _.
    rewrite length_map. apply length_seq.
Qed.

Lemma nth_map_row {T : Type} (f : list T -> vector) (M : list (list T))
  (i : nat) :
  (i < length M)%nat -> nth i (map f M) [] = f (nth i M []).
Proof.
  intros Hi. rewrite (nth_indep _ [] (f [])) by (rewrite length_map; exact Hi).
  apply map_nth.
Qed.

Lemma get2_mat_map (n m : nat) (f : float -> float) (M : matrix) (i j : nat) :
  rectangular n m M -> (i < n)%nat -> (j < m)%nat ->
  get2 (mat_map f M) i j = f (get2 M i j).
Proof.
  intros HM Hi Hj. pose proof (rectangular_row n m M i HM Hi) as Hrow.
  destruct HM as [Hn _]. unfold get2, mat_map.
  rewrite nth_map_row by lia. apply get_map. lia.
Qed.

Lemma get2_add_rowvec (n m : nat) (M : matrix) (v : vector) (i j : nat) :
  rectangular n m M -> length v = m -> (i < n)%nat -> (j < m)%nat ->
  get2 (add_rowvec M v) i j = fadd (get2 M i j) (get v j).
Proof.
  intros HM Hv Hi Hj. pose proof (rectangular_row n m M i HM Hi) as Hrow.
  destruct HM as [Hn _]. unfold get2, add_rowvec.
  rewrite (nth_map_row (fun row => map2 fadd row v)) by lia.
  apply get_map2; lia.
Qed.

Lemma get_column (M : matrix) (i j : nat) :
  (i < length M)%nat -> get (column M j) i = get2 M i j.
Proof.
  intros Hi. unfold column, get2, get at 1.
  rewrite (nth_indep _ (Fin 0) (get [] j)) by (rewrite length_map; exact Hi).
  apply (map_nth (fun row => get row j)).
Qed.

Lemma get2_transpose (m : nat) (M : matrix) (i j : nat) :
  (i < m)%nat -> (j < length M)%nat ->
  get2 (transpose m M) i j = get2 M j i.
Proof.
  intros Hi Hj. unfold get2 at 1, transpose.
  rewrite nth_map_seq by exact Hi. apply get_column. exact Hj.
Qed.

Lemma get2_np_dot (m : nat) (X Y : matrix) (i j : nat) :
  (i < length X)%nat -> (j < m)%nat ->
  get2 (np_dot m X Y) i j = dot_vec (nth i X []) (column Y j).
Proof.
  intros Hi Hj. unfold get2, np_dot.
  rewrite (nth_map_row
             (fun x => map (fun j => dot_vec x (column Y j)) (seq 0 m)))
    by exact Hi.
  unfold get.
  apply (nth_map_seq (fun j => dot_vec (nth i X []) (column Y j))). exact Hj.
Qed.

Lemma list_as_map_seq (v : vector) :
  map (get v) (seq 0 (length v)) = v.
Proof.
  apply (nth_ext _ _ (Fin 0) (Fin 0)).
  - rewrite length_map. apply length_seq.
  - intros k Hk. rewrite length_map, length_seq in Hk.
    rewrite nth_map_seq by exact Hk. reflexivity.
Qed.

(** Column [j] of [X.T] is row [j] of [X]. *)
Lemma column_transpose (n d : nat) (X : matrix) (j : nat) :
  rectangular n d X -> (j < n)%nat ->
  column (transpose d X) j = nth j X [].
Proof.
  intros HX Hj. pose proof (rectangular_row n d X j HX Hj) as Hrow.
  destruct HX as [Hn _]. unfold column at 1, transpose. rewrite map_map.
  transitivity (map (get (nth j X [])) (seq 0 d)).
  - apply map_ext. intros k. apply get_column. lia.
  - rewrite <- Hrow. apply list_as_map_seq.
Qed.

(** ** Dissimilarity: the Euclidean branch of [_x2d] *)

Lemma get_sumX (X : matrix) (i : nat) :
  (i < length X)%nat ->
  get (np_sum_axis1 (mat_map square X)) i = sq_norm (nth i X []).
Proof.
  intros Hi. unfold np_sum_axis1, mat_map, sq_norm, get. rewrite map_map.
  rewrite (nth_indep _ (Fin 0) (np_sum (map square [])))
    by (rewrite length_map; exact Hi).
  apply (map_nth (fun x => np_sum (map square x))).
Qed.

Lemma x2d_euclidean (scipy : option (string -> matrix -> exn + matrix))
  (self : SOS) (n d : nat) (X : matrix) :
  rectangular n d X -> metric self = "euclidean"%string ->
  exists D,
    _x2d scipy self X = inr D /\ rectangular n n D /\
    forall i j, (i < n)%nat -> (j < n)%nat ->
      get2 D i j = euclidean_cell (nth i X []) (nth j X []).
Proof.
  intros HX Hm. unfold _x2d, shape. rewrite Hm. cbn [String.eqb Ascii.eqb Bool.eqb].
  cbv iota. eexists. split; [reflexivity |].
  pose proof HX as [Hn _]. unfold nrows. rewrite Hn.
  set (sumX := np_sum_axis1 (mat_map square X)).
  assert (HsumX : length sumX = n).
  { unfold sumX, np_sum_axis1, mat_map. rewrite !length_map. exact Hn. }
  set (G := mat_map (fmul (Fin (-2))) (np_dot n X (transpose (ncols X) X))).
  assert (HG : rectangular n n G).
  { apply rectangular_mat_map. rewrite <- Hn at 1. apply rectangular_np_dot. }
  assert (HT : rectangular n n (transpose n (add_rowvec G sumX))).
  { pose proof (rectangular_transpose n (add_rowvec G sumX)) as HT.
    unfold add_rowvec in HT at 1. rewrite length_map in HT.
    destruct HG as [HGn _]. rewrite HGn in HT. exact HT. }
  split.
  - do 2 apply rectangular_mat_map. apply rectangular_add_rowvec; assumption.
  - intros i j Hi Hj.
    destruct (Nat.eq_dec n 0) as [Hz | Hz]; [lia |].
    assert (Hd : ncols X = d) by (apply (rectangular_ncols n); [exact HX | lia]).
    rewrite (get2_mat_map n n), (get2_mat_map n n); auto;
      try (apply rectangular_mat_map);
      try (apply rectangular_add_rowvec; assumption).
    rewrite (get2_add_rowvec n n) by assumption.
    rewrite get2_transpose
      by (try exact Hi; unfold add_rowvec; rewrite length_map;
          destruct HG as [-> _]; exact Hj).
    rewrite (get2_add_rowvec n n) by assumption.
    unfold G. rewrite (get2_mat_map n n); auto;
      [| rewrite <- Hn at 1; apply rectangular_np_dot].
    rewrite get2_np_dot by lia. rewrite Hd.
    rewrite (column_transpose n d) by assumption.
    unfold sumX. rewrite !get_sumX by lia. reflexivity.
Qed.

(** *** Finite vectors as lists of reals *)

Lemma fold_fadd_fin (l : list R) (a : R) :
  fold_left fadd (map Fin l) (Fin a) = Fin (fold_left Rplus l a).
Proof.
  revert a; induction l as [|x l IH]; intros a; simpl; [reflexivity | apply IH].
Qed.

Lemma np_sum_fin (l : list R) : np_sum (map Fin l) = Fin (Rsum l).
Proof. apply fold_fadd_fin. Qed.

Lemma map2_fmul_fin (a b : list R) :
  map2 fmul (map Fin a) (map Fin b) = map Fin (map2 Rmult a b).
Proof.
  revert b; induction a as [|x a IH]; intros [|y b]; simpl; auto.
  f_equal. apply IH.
Qed.

Lemma dot_vec_fin (a b : list R) :
  dot_vec (map Fin a) (map Fin b) = Fin (Rsum (map2 Rmult a b)).
Proof. unfold dot_vec. rewrite map2_fmul_fin. apply np_sum_fin. Qed.

Lemma sq_norm_fin (a : list R) :
  sq_norm (map Fin a) = Fin (Rsum (map (fun x => x * x) a)).
Proof.
  unfold sq_norm. rewrite map_map.
  rewrite <- (map_map (fun x => x * x) Fin). apply np_sum_fin.
Qed.

Lemma fold_Rplus_acc (l : list R) (a : R) :
  fold_left Rplus l a = a + Rsum l.
Proof.
  unfold Rsum. revert a; induction l as [|x l IH]; intros a; simpl.
  - lra.
  - rewrite IH, (IH (0 + x)). lra.
Qed.

Lemma Rsum_cons (x : R) (l : list R) : Rsum (x :: l) = x + Rsum l.
Proof. unfold Rsum at 1. simpl. rewrite fold_Rplus_acc. lra. Qed.

Lemma map2_Rmult_comm (a b : list R) : map2 Rmult a b = map2 Rmult b a.
Proof.
  revert b; induction a as [|x a IH]; intros [|y b]; simpl; auto.
  f_equal; [lra | apply IH].
Qed.

(** The expanded square: the quantity under the root is the sum of the
    squared differences, so it is not negative. *)
Lemma expanded_square (a b : list R) :
  length a = length b ->
  Rsum (map (fun x => x * x) a) + Rsum (map (fun x => x * x) b)
    - 2 * Rsum (map2 Rmult a b)
  = Rsum (map2 (fun x y => (x - y) * (x - y)) a b) /\
  0 <= Rsum (map2 (fun x y => (x - y) * (x - y)) a b).
Proof.
  revert b; induction a as [|x a IH]; intros [|y b] Hlen; simpl in Hlen;
    try discriminate.
  - unfold Rsum. simpl. lra.
  - destruct (IH b) as [IHe IHp]; [lia |]. cbn [map map2].
    rewrite !Rsum_cons. split.
    + rewrite <- IHe. ring.
    + pose proof (Rle_0_sqr (x - y)) as Hsq. unfold Rsqr in Hsq. lra.
Qed.

Lemma euclidean_cell_fin (a b : list R) :
  length a = length b ->
  euclidean_cell (map Fin a) (map Fin b) =
  Fin (sqrt (Rsum (map2 (fun x y => (x - y) * (x - y)) a b))).
Proof.
  intros Hlen. destruct (expanded_square a b Hlen) as [He Hp].
  unfold euclidean_cell. rewrite dot_vec_fin, !sq_norm_fin.
  rewrite (map2_Rmult_comm b a). cbn [fmul fadd fabs fsqrt].
  set (w := Rsum (map2 (fun x y => (x - y) * (x - y)) a b)) in *.
  replace (-2 * Rsum (map2 Rmult a b) + Rsum (map (fun x => x * x) a)
           + Rsum (map (fun x => x * x) b)) with w by lra.
  rewrite Rabs_right by lra. rewrite Rltb_false by lra. reflexivity.
Qed.

Lemma X_2x1_shape : rectangular 2 1 X_2x1.
Proof. split; [reflexivity | repeat constructor]. Qed.

(** ** Binding probabilities: [_a2b] *)

Lemma map2_map_diag {T U V : Type} (f : T -> U -> V) (g : T -> U)
  (l : list T) :
  map2 f l (map g l) = map (fun x => f x (g x)) l.
Proof.
  induction l as [|x l IH]; simpl; [reflexivity | f_equal; exact IH].
Qed.

(** [_a2b] divides each row by its sum. *)
Lemma a2b_rows (A : matrix) :
  _a2b A = map (fun row => map (fun a => fdiv a (np_sum row)) row) A.
Proof. unfold _a2b, np_sum_axis1. apply map2_map_diag. Qed.

Lemma a2b_shape (n m : nat) (A : matrix) :
  rectangular n m A -> rectangular n m (_a2b A).
Proof.
  intros [Hn HA]. rewrite a2b_rows. split.
  - rewrite length_map. exact Hn.
  - rewrite Forall_map. eapply Forall_impl; [| exact HA].
    intros row Hr. simpl. rewrite length_map. exact Hr.
Qed.

(** ** The precomputed mode of [_x2d] and the validation of [fit] *)

Lemma none_branch_of_x2d (scipy : option (string -> matrix -> exn + matrix))
  (self : SOS) (X : matrix) :
  metric self = "none"%string ->
  _x2d scipy self X =
  if (nrows X =? ncols X)%nat then inr X
  else inl (ValueError msg_not_square).
Proof.
  intros Hm. unfold _x2d, shape. rewrite Hm.
  cbn [String.eqb Ascii.eqb Bool.eqb]. cbv iota.
  destruct (nrows X =? ncols X)%nat; reflexivity.
Qed.

(** C2, as the code has it.  With the metric ['none'], [_x2d] raises a
    [ValueError] when the input is not square, and returns the input
    itself when it is; in [decision_function] the error leaves the record
    of computed stages empty. *)
Theorem x2d_none (scipy : option (string -> matrix -> exn + matrix))
  (self : SOS) (X : matrix) :
  metric self = "none"%string ->
  (nrows X <> ncols X ->
     _x2d scipy self X = inl (ValueError msg_not_square) /\
     (check_is_fitted self = inr tt -> check_array X = inr X ->
      decision_function scipy self X = ([], inl (ValueError msg_not_square)))) /\
  (nrows X = ncols X -> _x2d scipy self X = inr X).
Proof.
  intros Hm. pose proof (none_branch_of_x2d scipy self X Hm) as Hx. split.
  - intros Hne. apply Nat.eqb_neq in Hne. rewrite Hne in Hx.
    split; [exact Hx |].
    intros Hfit Hcheck. unfold decision_function.
    rewrite Hfit, Hcheck. cbn [call bind]. rewrite Hx. reflexivity.
  - intros Heq. apply Nat.eqb_eq in Heq. rewrite Heq in Hx. exact Hx.
Qed.

Lemma x2d_none_witness :
  metric (SOS_named "none") = "none"%string /\
  _x2d None (SOS_named "none") X_5x3 = inl (ValueError msg_not_square) /\
  _x2d None (SOS_named "none") D_2x2 = inr D_2x2.
Proof.
  assert (Hm : metric (SOS_named "none") = "none"%string) by reflexivity.
  split; [exact Hm | split].
  - apply (x2d_none None (SOS_named "none") X_5x3 Hm).
    unfold nrows, ncols, X_5x3. simpl. lia.
  - apply (x2d_none None (SOS_named "none") D_2x2 Hm). reflexivity.
Defined.

(** C2, as stated, fails: the name ["precomputed"] is not one the code
    tests for.  The input goes to the distance routine of scipy whatever
    its shape: no shape error is raised by [_x2d], and a square input is
    not returned as it is when that routine rejects the name. *)
Lemma precomputed_is_delegated :
  (forall dist, _x2d (Some dist) (SOS_named "precomputed") X_5x3
                = dist "precomputed"%string X_5x3) /\
  (forall dist, _x2d (Some dist) (SOS_named "precomputed") D_2x2
                = dist "precomputed"%string D_2x2) /\
  _x2d None (SOS_named "precomputed") X_5x3 = inl (ImportError msg_no_scipy) /\
  ~ (forall scipy X,
       (nrows X <> ncols X ->
        _x2d scipy (SOS_named "precomputed") X = inl (ValueError msg_not_square)) /\
       (nrows X = ncols X ->
        _x2d scipy (SOS_named "precomputed") X = inr X)).
Proof.
  split; [| split; [| split]]; try reflexivity.
  intros Hclaim.
  destruct (Hclaim (Some (fun name _ => inl (ValueError name))) D_2x2)
    as [_ Hsq].
  specialize (Hsq eq_refl). discriminate Hsq.
Qed.

(** C8 (as amended).  [fit] validates its input with [check_array]
    before the pipeline runs: an input with a cell that is not finite,
    with no row or with no column, or one that is not square under the
    metric ['none'], makes [fit] raise a [ValueError], and the record of
    computed stages is empty. *)
Theorem fit_validates (scipy : option (string -> matrix -> exn + matrix))
  (_set_n_classes _process_decision_scores : SOS -> SOS)
  (self : SOS) (X : matrix) :
  all_finite X = false \/ (nrows X < 1)%nat \/ (ncols X < 1)%nat \/
  (metric (_set_n_classes self) = "none"%string /\ nrows X <> ncols X) ->
  exists msg,
    fit scipy _set_n_classes _process_decision_scores self X
    = ([], inl (ValueError msg)).
Proof.
  intros Hbad. unfold fit, check_array.
  destruct (all_finite X) eqn:Efin; cbn [negb];
    [| eexists; reflexivity].
  destruct (nrows X <? 1)%nat eqn:Erows; [eexists; reflexivity |].
  destruct (ncols X <? 1)%nat eqn:Ecols; [eexists; reflexivity |].
  apply Nat.ltb_ge in Erows, Ecols.
  destruct Hbad as [Hfin | [Hrows | [Hcols | [Hm Hshape]]]];
    [discriminate | lia | lia |].
  pose proof (none_branch_of_x2d scipy (_set_n_classes self) X Hm) as Hx.
  apply Nat.eqb_neq in Hshape. rewrite Hshape in Hx.
  exists msg_not_square. cbn [call bind]. rewrite Hx. reflexivity.
Qed.

Lemma fit_validates_witness :
  all_finite [[Fin 0; NaN]; [Fin 1; Fin 2]] = false /\
  exists msg,
    fit None (fun self => self) (fun self => self)
        (SOS_named "euclidean") [[Fin 0; NaN]; [Fin 1; Fin 2]]
    = ([], inl (ValueError msg)).
Proof.
  split; [reflexivity |].
  apply (fit_validates None (fun self => self) (fun self => self)
           (SOS_named "euclidean") [[Fin 0; NaN]; [Fin 1; Fin 2]]).
  left. reflexivity.
Defined.

(** ** The metric name *)

Lemma lower_ascii_idempotent (c : ascii) :
  lower_ascii (lower_ascii c) = lower_ascii c.
Proof.
  destruct c as [[] [] [] [] [] [] [] []]; vm_compute; reflexivity.
Qed.

Lemma lower_idempotent (s : string) : lower (lower s) = lower s.
Proof.
  induction s as [|c s IH]; simpl; [reflexivity |].
  rewrite lower_ascii_idempotent, IH. reflexivity.
Qed.

(** C10.  The constructor stores the lowercased metric name, so a name in
    any casing builds the same detector as its lowercase form, and the
    dissimilarity matrix, [fit] and [decision_function] (results and
    errors) are the same; ["Euclidean"] and ["EUCLIDEAN"] select the
    Euclidean branch. *)
Theorem metric_case_insensitive
  (scipy : option (string -> matrix -> exn + matrix))
  (_set_n_classes _process_decision_scores : SOS -> SOS)
  (contamination perplexity eps : float) (name : string) (X : matrix) :
  let given := __init__ contamination perplexity name eps in
  let lowered := __init__ contamination perplexity (lower name) eps in
  metric given = lower name /\
  given = lowered /\
  _x2d scipy given X = _x2d scipy lowered X /\
  fit scipy _set_n_classes _process_decision_scores given X =
  fit scipy _set_n_classes _process_decision_scores lowered X /\
  decision_function scipy given X = decision_function scipy lowered X /\
  metric (SOS_named "Euclidean") = "euclidean"%string /\
  metric (SOS_named "EUCLIDEAN") = "euclidean"%string.
Proof.
  intros given lowered.
  assert (E : given = lowered).
  { unfold given, lowered, __init__. rewrite lower_idempotent. reflexivity. }
  split; [reflexivity | split; [exact E |]].
  rewrite E. repeat split; reflexivity.
Qed.

(** ** The kernel of a row *)

Lemma get_perplexity_kernel (D : vector) (beta : float) :
  _get_perplexity D beta =
  (fadd (flog (np_sum (map (kernel beta) D)))
        (fdiv (fmul beta (np_sum (map (fun d => fmul d (kernel beta d)) D)))
              (np_sum (map (kernel beta) D))),
   map (kernel beta) D).
Proof.
  unfold _get_perplexity. fold (kernel beta).
  rewrite (map2_map_diag fmul (kernel beta) D). reflexivity.
Qed.

(** ** The shape of the affinity matrix *)

Lemma d2a_shape (self : SOS) (D : matrix) :
  rectangular (length D) (length D) (_d2a self D).
Proof.
  rewrite d2a_rows. split.
  - rewrite length_map. apply length_seq.
  - rewrite Forall_map, Forall_forall. intros i _. apply affinity_row_length.
Qed.

Lemma nth_map_list {T U : Type} (g : T -> U) (l : list T) (a : nat)
  (d : U) (d' : T) :
  (a < length l)%nat -> nth a (map g l) d = g (nth a l d').
Proof.
  intros Ha. rewrite (nth_indep _ d (g d')) by (rewrite length_map; exact Ha).
  apply map_nth.
Qed.

(** ** Permutations of the samples *)

Section Permuted.

Variable n : nat.
Variable pi : list nat.
Hypothesis pi_perm : Permutation pi (seq 0 n).

Lemma pi_length : length pi = n.
Proof. rewrite (Permutation_length pi_perm). apply length_seq. Qed.

Lemma pi_range (a : nat) : (a < n)%nat -> (nth a pi O < n)%nat.
Proof.
  intros Ha. assert (Hin : In (nth a pi O) pi)
    by (apply nth_In; rewrite pi_length; exact Ha).
  apply (Permutation_in _ pi_perm), in_seq in Hin. lia.
Qed.

Lemma pi_NoDup : NoDup pi.
Proof.
  apply (Permutation_NoDup (Permutation_sym pi_perm)). apply seq_NoDup.
Qed.

Lemma pi_injective (a b : nat) :
  (a < n)%nat -> (b < n)%nat -> nth a pi O = nth b pi O -> a = b.
Proof.
  intros Ha Hb. apply (proj1 (NoDup_nth pi O) pi_NoDup);
    rewrite pi_length; assumption.
Qed.

Lemma pi_onto (x : nat) :
  (x < n)%nat -> exists b, (b < n)%nat /\ nth b pi O = x.
Proof.
  intros Hx. assert (Hin : In x pi).
  { apply (Permutation_in _ (Permutation_sym pi_perm)), in_seq. lia. }
  destruct (In_nth pi x O Hin) as [b [Hb Eb]].
  exists b. rewrite pi_length in Hb. auto.
Qed.

(** The columns other than [a], renamed by [pi], are the columns other
    than [pi[a]], in another order. *)
Lemma others_permuted (a : nat) :
  (a < n)%nat ->
  Permutation (map (fun b => nth b pi O) (others a n))
              (others (nth a pi O) n).
Proof.
  intros Ha. pose proof (pi_range a Ha) as Hpa.
  apply NoDup_Permutation.
  - apply NoDup_map_NoDup_ForallPairs; [| apply others_NoDup].
    intros x y Hx Hy E. apply others_in in Hx, Hy; try exact Ha.
    apply pi_injective; tauto.
  - apply others_NoDup.
  - intros x. rewrite in_map_iff, (others_in _ _ _ Hpa). split.
    + intros [b [<- Hb]]. apply others_in in Hb; [| exact Ha].
      split; [apply pi_range; tauto |].
      intros E. apply pi_injective in E; tauto.
    + intros [Hx Hne]. destruct (pi_onto x Hx) as [b [Hb Eb]].
      exists b. split; [exact Eb |]. apply others_in; [exact Ha |].
      split; [exact Hb |]. intros ->. apply Hne. symmetry. exact Eb.
Qed.

End Permuted.

(** ** Arrays with the same cells *)

Lemma vector_ext (n : nat) (u v : vector) :
  length u = n -> length v = n ->
  (forall j, (j < n)%nat -> get u j = get v j) -> u = v.
Proof.
  intros Hu Hv Hcells. apply (nth_ext _ _ (Fin 0) (Fin 0)); [lia |].
  intros j Hj. apply Hcells. lia.
Qed.

Lemma matrix_ext (n m : nat) (M M' : matrix) :
  rectangular n m M -> rectangular n m M' ->
  (forall i j, (i < n)%nat -> (j < m)%nat -> get2 M i j = get2 M' i j) ->
  M = M'.
Proof.
  intros HM HM' Hcells. pose proof HM as [Hn _]. pose proof HM' as [Hn' _].
  apply (nth_ext _ _ [] []); [lia |].
  intros i Hi. rewrite Hn in Hi. apply (vector_ext m).
  - apply (rectangular_row n m M i HM Hi).
  - apply (rectangular_row n m M' i HM' Hi).
  - intros j Hj. apply (Hcells i j Hi Hj).
Qed.

(** ** A perplexity beyond the achievable entropy

    The entropy of a row of [m] finite dissimilarities is at most [ln m],
    so a target above [ln m] is never reached: the loop runs all its
    [max_tries] iterations and the row is written all the same. *)

Lemma ln_le_minus_1 (x : R) : 0 < x -> ln x <= x - 1.
Proof.
  intros Hx. pose proof (exp_ineq1_le (x - 1)) as He.
  replace (1 + (x - 1)) with x in He by lra.
  destruct He as [Hlt | Heq].
  - left. rewrite <- (ln_exp (x - 1)). apply ln_increasing; assumption.
  - right. rewrite Heq at 1. apply ln_exp.
Qed.

Lemma Rsum_map_le (f g : R -> R) (l : list R) :
  (forall d, f d <= g d) -> Rsum (map f l) <= Rsum (map g l).
Proof.
  intros Hfg. induction l as [|d l IH].
  - unfold Rsum; simpl; lra.
  - cbn [map]. rewrite !Rsum_cons. specialize (Hfg d). lra.
Qed.

Lemma Rsum_map_linear (a : R -> R) (c b : R) (l : list R) :
  Rsum (map (fun d => a d * (c + d * b)) l) =
  c * Rsum (map a l) + b * Rsum (map (fun d => d * a d) l).
Proof.
  induction l as [|d l IH].
  - unfold Rsum; simpl; lra.
  - cbn [map]. rewrite !Rsum_cons, IH. ring.
Qed.

Lemma Rsum_map_const_minus (a : R -> R) (k : R) (l : list R) :
  Rsum (map (fun d => k - a d) l) = INR (length l) * k - Rsum (map a l).
Proof.
  induction l as [|d l IH].
  - unfold Rsum; simpl; lra.
  - cbn [map length]. rewrite !Rsum_cons, IH, S_INR. ring.
Qed.

Lemma Rsum_map_pos (a : R -> R) (l : list R) :
  l <> [] -> (forall d, 0 < a d) -> 0 < Rsum (map a l).
Proof.
  intros Hl Ha. destruct l as [|d l]; [contradiction |]. clear Hl.
  revert d; induction l as [|d' l IH]; intros d; cbn [map].
  - rewrite Rsum_cons. unfold Rsum; simpl. specialize (Ha d). lra.
  - rewrite Rsum_cons. specialize (IH d'). cbn [map] in IH.
    specialize (Ha d). lra.
Qed.

(** The entropy of a finite row at a finite precision, as a real. *)
Lemma entropy_as_real (ds : list R) (b : R) :
  ds <> [] ->
  let a := fun d => exp (- d * b) in
  let S := Rsum (map a ds) in
  let T := Rsum (map (fun d => d * a d) ds) in
  0 < S /\
  _get_perplexity (map Fin ds) (Fin b) =
  (Fin (ln S + b * T / S), map Fin (map a ds)).
Proof.
  intros Hds a S T.
  assert (HS : 0 < S) by (apply Rsum_map_pos; [exact Hds | intros d; apply exp_pos]).
  split; [exact HS |].
  rewrite get_perplexity_kernel.
  assert (Ea : map (kernel (Fin b)) (map Fin ds) = map Fin (map a ds)).
  { rewrite !map_map. reflexivity. }
  assert (Et : map (fun d => fmul d (kernel (Fin b) d)) (map Fin ds) =
               map Fin (map (fun d => d * a d) ds)).
  { rewrite !map_map. reflexivity. }
  rewrite Ea, Et, !np_sum_fin. fold S T.
  unfold flog. rewrite (Rltb_true 0 S HS). cbn [fmul].
  rewrite fdiv_fin by lra. reflexivity.
Qed.

Lemma entropy_bound (ds : list R) (b : R) :
  ds <> [] ->
  exists h, fst (_get_perplexity (map Fin ds) (Fin b)) = Fin h /\
            h <= ln (INR (length ds)).
Proof.
  intros Hds. destruct (entropy_as_real ds b Hds) as [HS ->].
  set (a := fun d => exp (- d * b)) in *.
  set (S := Rsum (map a ds)) in *.
  set (T := Rsum (map (fun d => d * a d) ds)).
  set (m := INR (length ds)).
  assert (Hm : 0 < m).
  { unfold m. destruct ds as [|d ds]; [contradiction |].
    cbn [length]. rewrite S_INR. pose proof (pos_INR (length ds)). lra. }
  exists (ln S + b * T / S). split; [reflexivity |].
  assert (Hterm : forall d, a d * ((ln S - ln m) + d * b) <= S / m - a d).
  { intros d. assert (Ha : 0 < a d) by apply exp_pos.
    assert (Hx : 0 < S / (m * a d)).
    { apply Rdiv_lt_0_compat; [exact HS | apply Rmult_lt_0_compat; assumption]. }
    pose proof (ln_le_minus_1 _ Hx) as Hln.
    assert (Eln : ln (S / (m * a d)) = ln S - ln m + d * b).
    { unfold Rdiv. rewrite ln_mult, ln_Rinv, ln_mult; try assumption.
      - unfold a. rewrite ln_exp. ring.
      - apply Rmult_lt_0_compat; assumption.
      - apply Rinv_0_lt_compat. apply Rmult_lt_0_compat; assumption. }
    rewrite Eln in Hln.
    replace (S / m - a d) with (a d * (S / (m * a d) - 1)) by (field; lra).
    apply Rmult_le_compat_l; lra. }
  pose proof (Rsum_map_le _ _ ds Hterm) as Hsum.
  rewrite Rsum_map_linear, Rsum_map_const_minus in Hsum.
  fold S T m in Hsum.
  replace (m * (S / m) - S) with 0 in Hsum by (field; lra).
  assert (Hdiv : (ln S - ln m) + b * T / S <= 0).
  { replace ((ln S - ln m) + b * T / S)
      with (((ln S - ln m) * S + b * T) / S) by (field; lra).
    apply Rmult_le_reg_r with S; [exact HS |].
    unfold Rdiv. rewrite Rmult_assoc, Rinv_l by lra. lra. }
  lra.
Qed.

Lemma visited_Hdiff (Di : vector) (logU eps : float) (s : calib) :
  visited Di logU eps s ->
  Hdiff s = fsub (fst (_get_perplexity Di (beta_i s))) logU.
Proof.
  intros Hs. destruct Hs as [|s Hs Hc].
  - unfold entry. destruct (_get_perplexity Di (Fin 1)) as [H A] eqn:E.
    cbn [Hdiff beta_i]. rewrite E. reflexivity.
  - destruct (iteration_fields Di logU s) as [_ [Hperp [Hd _]]].
    rewrite Hd, <- Hperp. reflexivity.
Qed.

Section Unreachable.

Variable ds : list R.
Variables u e : R.
Hypothesis row_not_empty : ds <> [].
Hypothesis target_too_high : ln (INR (length ds)) - u < - e.

Lemma unreachable_off_target (s : calib) :
  visited (map Fin ds) (Fin u) (Fin e) s -> off_target (Fin e) s = true.
Proof.
  intros Hs. unfold off_target.
  rewrite (visited_Hdiff _ _ _ s Hs).
  destruct (visited_inv _ _ _ s Hs) as [[b [-> _]] _].
  destruct (entropy_bound ds b row_not_empty) as [h [-> Hh]].
  cbn. apply Rltb_true.
  pose proof (Rle_abs (- (h + - u))) as Habs. rewrite Rabs_Ropp in Habs. lra.
Qed.

(** The loop gives up after [max_tries] iterations, still off target. *)
Lemma unreachable_exhausts :
  let s := search (map Fin ds) (Fin u) (Fin e)
             (entry (map Fin ds) (Fin u) (Fin 1)) in
  tries s = max_tries /\ off_target (Fin e) s = true.
Proof.
  intros s.
  destruct (search_visited (map Fin ds) (Fin u) (Fin e) _
              (visited_entry (map Fin ds) (Fin u) (Fin e))) as [Hv Hstop].
  fold s in Hv, Hstop.
  pose proof (unreachable_off_target s Hv) as Hoff.
  destruct (visited_inv _ _ _ s Hv) as [_ [_ [_ [_ Ht]]]].
  split; [| exact Hoff].
  unfold continue in Hstop. rewrite Hoff in Hstop. cbn [andb] in Hstop.
  apply Z.ltb_ge in Hstop. lia.
Qed.

End Unreachable.

Lemma ln_50_above_ln_4 : ln 4 - ln 50 < - (1 / 100000).
Proof.
  assert (H50 : ln 50 = ln 4 + ln (25 / 2)).
  { rewrite <- ln_mult by lra. f_equal. lra. }
  assert (Hsmall : 1 / 100000 < ln (25 / 2)).
  { rewrite <- (ln_exp (1 / 100000)).
    apply ln_increasing; [apply exp_pos |].
    pose proof (exp_increasing (1 / 100000) 1) as Hexp.
    pose proof exp_le_3. lra. }
  lra.
Qed.

(** With perplexity 50 and the five collinear points, every row exhausts
    its 5000 iterations without reaching the tolerance. *)
Lemma perplexity_50_exhausts (i : nat) :
  (i < 5)%nat ->
  let s := row_state D_5x5 5 (flog (perplexity SOS_perplexity_50))
             (eps SOS_perplexity_50) i in
  tries s = 5000%Z /\ off_target (eps SOS_perplexity_50) s = true.
Proof.
  intros Hi.
  assert (Elog : flog (perplexity SOS_perplexity_50) = Fin (ln 50)).
  { cbn. rewrite Rltb_true by lra. reflexivity. }
  rewrite Elog. unfold row_state.
  assert (Hrow : exists ds, off_diagonal D_5x5 5 i = map Fin ds /\
                            length ds = 4%nat).
  { destruct i as [|[|[|[|[|i]]]]]; try lia;
      [exists [1; 2; 3; 100] | exists [1; 1; 2; 99] | exists [2; 1; 1; 98]
      | exists [3; 2; 1; 97] | exists [100; 99; 98; 97]];
      (split; reflexivity). }
  destruct Hrow as [ds [-> Hlen]].
  apply (unreachable_exhausts ds (ln 50) (1 / 100000)).
  - intros E. rewrite E in Hlen. discriminate Hlen.
  - rewrite Hlen. replace (INR 4) with 4 by (simpl; lra).
    apply ln_50_above_ln_4.
Qed.

(* ===================================================================== *)
(** * Part III.  Further properties of the pipeline *)
(* ===================================================================== *)

(** ** The entropy of a row *)

Lemma Rsum_map_le_in (f g : R -> R) (l : list R) :
  (forall d, In d l -> f d <= g d) -> Rsum (map f l) <= Rsum (map g l).
Proof.
  induction l as [|d l IH]; intros Hfg.
  - unfold Rsum; simpl; lra.
  - cbn [map]. rewrite !Rsum_cons.
    pose proof (Hfg d (or_introl eq_refl)).
    assert (Rsum (map f l) <= Rsum (map g l))
      by (apply IH; intros x Hx; apply Hfg; right; exact Hx).
    lra.
Qed.

Lemma Rsum_map_zero (l : list R) : Rsum (map (fun _ => 0) l) = 0.
Proof.
  induction l as [|d l IH]; [reflexivity |].
  cbn [map]. rewrite Rsum_cons, IH. lra.
Qed.

Lemma Rsum_map_nonneg (f : R -> R) (l : list R) :
  (forall d, In d l -> 0 <= f d) -> 0 <= Rsum (map f l).
Proof.
  intros Hf. rewrite <- (Rsum_map_zero l). apply Rsum_map_le_in. exact Hf.
Qed.

Lemma Rsum_map_member (a : R -> R) (l : list R) (d : R) :
  (forall x, 0 <= a x) -> In d l -> a d <= Rsum (map a l).
Proof.
  intros Ha. induction l as [|x l IH]; intros Hd; [destruct Hd |].
  cbn [map]. rewrite Rsum_cons. destruct Hd as [-> | Hd].
  - pose proof (Rsum_map_nonneg a l (fun y _ => Ha y)). lra.
  - specialize (IH Hd). specialize (Ha x). lra.
Qed.

Lemma ln_le_compat (x y : R) : 0 < x -> x <= y -> ln x <= ln y.
Proof.
  intros Hx [Hlt | ->]; [left; apply ln_increasing; assumption | right; reflexivity].
Qed.

Lemma entropy_between (ds : list R) (b : R) :
  ds <> [] ->
  exists h, fst (_get_perplexity (map Fin ds) (Fin b)) = Fin h /\
            0 <= h <= ln (INR (length ds)).
Proof.
  intros Hds. destruct (entropy_bound ds b Hds) as [h [Eh Hupper]].
  exists h. split; [exact Eh | split; [| exact Hupper]].
  destruct (entropy_as_real ds b Hds) as [HS Eperp].
  rewrite Eperp in Eh. cbn [fst] in Eh. injection Eh as Eh'.
  set (a := fun d => exp (- d * b)) in *.
  set (S := Rsum (map a ds)) in *.
  set (T := Rsum (map (fun d => d * a d) ds)) in *.
  assert (Hterm : forall d, In d ds -> 0 <= a d * (ln S + d * b)).
  { intros d Hd. assert (Ha : 0 < a d) by apply exp_pos.
    assert (Hle : a d <= S).
    { apply Rsum_map_member; [intros x; left; apply exp_pos | exact Hd]. }
    pose proof (ln_le_compat _ _ Ha Hle) as Hln.
    unfold a in Hln at 1. rewrite ln_exp in Hln.
    apply Rmult_le_pos; lra. }
  pose proof (Rsum_map_nonneg _ ds Hterm) as Hsum.
  rewrite Rsum_map_linear in Hsum. fold S T in Hsum.
  assert (Hh : h = ln S + b * T / S) by (rewrite <- Eh'; reflexivity).
  rewrite Hh.
  replace (ln S + b * T / S) with ((ln S * S + b * T) / S) by (field; lra).
  apply Rmult_le_reg_r with S; [exact HS |].
  replace ((ln S * S + b * T) / S * S) with (ln S * S + b * T) by (field; lra).
  lra.
Qed.

(** ** The search of one row *)

Lemma row_state_visited (D : matrix) (n : nat) (logU eps : float) (i : nat) :
  let s := row_state D n logU eps i in
  visited (off_diagonal D n i) logU eps s /\ continue eps s = false.
Proof.
  intros s. unfold s, row_state.
  apply search_visited. apply visited_entry.
Qed.

(** X2.  When the loop of a row stops before [max_tries] iterations, the
    entropy at the precision it returns is within the tolerance of the
    target: [Hdiff] is not NaN and [|Hdiff| > eps] is false, where [Hdiff]
    is the entropy of the row at the final [beta_i] minus [logU], and the
    kernel written to [A] is the kernel at that precision. *)
Theorem stopped_early_on_target (D : matrix) (n : nat) (logU eps : float)
  (i : nat) :
  let Di := off_diagonal D n i in
  let s := row_state D n logU eps i in
  (tries s < max_tries)%Z ->
  isnan (Hdiff s) = false /\
  fgtb (fabs (Hdiff s)) eps = false /\
  Hdiff s = fsub (fst (_get_perplexity Di (beta_i s))) logU /\
  thisA s = snd (_get_perplexity Di (beta_i s)).
Proof.
  intros Di s Ht. destruct (row_state_visited D n logU eps i) as [Hv Hstop].
  fold s Di in Hv, Hstop.
  unfold continue in Hstop. apply Z.ltb_lt in Ht. rewrite Ht in Hstop.
  rewrite andb_true_r in Hstop. unfold off_target in Hstop.
  apply orb_false_elim in Hstop as [Hnan Hgt].
  destruct (visited_inv Di logU eps s Hv) as [_ [_ [_ [HA _]]]].
  repeat split; auto. apply (visited_Hdiff Di logU eps s Hv).
Qed.

(** On a row of finite dissimilarities and with a finite target, [Hdiff]
    is a finite number in every state of the search. *)
Lemma finite_row_Hdiff (ds : list R) (u : R) (eps : float) (s : calib) :
  ds <> [] -> visited (map Fin ds) (Fin u) eps s ->
  exists b h, beta_i s = Fin b /\ 0 < b /\
              fst (_get_perplexity (map Fin ds) (Fin b)) = Fin h /\
              Hdiff s = Fin (h + - u).
Proof.
  intros Hds Hs.
  destruct (visited_inv _ _ _ s Hs) as [[b [Eb Hb]] _].
  destruct (entropy_bound ds b Hds) as [h [Eh _]].
  exists b, h. repeat split; auto.
  rewrite (visited_Hdiff _ _ _ s Hs), Eb, Eh. reflexivity.
Qed.

Lemma stopped_early_on_target_witness :
  (tries (row_state D_2x2 2 (flog (Fin 1)) default_eps 0) < max_tries)%Z /\
  fgtb (fabs (Hdiff (row_state D_2x2 2 (flog (Fin 1)) default_eps 0)))
       default_eps = false.
Proof.
  assert (Elog : flog (Fin 1) = Fin 0).
  { cbn. rewrite Rltb_true by lra. rewrite ln_1. reflexivity. }
  rewrite Elog.
  assert (Ht : (tries (row_state D_2x2 2 (Fin 0) default_eps 0) < max_tries)%Z).
  { unfold row_state.
    change (off_diagonal D_2x2 2 0) with (map Fin [1]).
    rewrite search_equation.
    assert (Hne : [1] <> []) by discriminate.
    destruct (finite_row_Hdiff [1] 0 default_eps _ Hne
                (visited_entry (map Fin [1]) (Fin 0) default_eps))
      as [b [h [_ [_ [Eh Hd]]]]].
    destruct (entropy_between [1] b Hne) as [h' [Eh' Hh]].
    rewrite Eh in Eh'. injection Eh' as <-.
    cbn [length INR] in Hh. rewrite ln_1 in Hh.
    unfold continue, off_target. rewrite Hd.
    cbn [isnan fabs fgtb fltb orb default_eps].
    rewrite Rltb_false; [cbn [andb] |].
    - unfold entry. destruct (_get_perplexity (map Fin [1]) (Fin 1)).
      cbn [tries]. unfold max_tries. lia.
    - replace (h + - 0) with 0 by lra. rewrite Rabs_R0. lra. }
  split; [exact Ht |].
  apply (stopped_early_on_target D_2x2 2 (Fin 0) default_eps 0 Ht).
Defined.

(** ** A single sample *)

Lemma empty_row_entropy (b : R) : fst (_get_perplexity [] (Fin b)) = NaN.
Proof.
  unfold _get_perplexity. cbn.
  rewrite (Rltb_false 0 0) by lra. rewrite !Reqb_true by lra.
  reflexivity.
Qed.

Lemma empty_row_off_target (logU eps : float) (s : calib) :
  visited [] logU eps s -> off_target eps s = true.
Proof.
  intros Hs. unfold off_target.
  rewrite (visited_Hdiff _ _ _ s Hs).
  destruct (visited_inv _ _ _ s Hs) as [[b [-> _]] _].
  rewrite empty_row_entropy. reflexivity.
Qed.

(** X5.  For one sample (a 1 by 1 dissimilarity matrix, whatever its
    cell and the configuration) the row has no other sample: the entropy
    is NaN in every iteration, the loop runs all 5000 iterations, [_d2a]
    returns the matrix [[0]], [_a2b] turns it into [[NaN]] and the score
    of the sample is NaN. *)
Theorem single_sample (self : SOS) (d : float) :
  tries (row_state (D_1x1 d) 1 (flog (perplexity self)) (eps self) 0)
    = 5000%Z /\
  _d2a self (D_1x1 d) = [[Fin 0]] /\
  _a2b (_d2a self (D_1x1 d)) = [[NaN]] /\
  _b2o (_a2b (_d2a self (D_1x1 d))) = [NaN].
Proof.
  assert (EA : _d2a self (D_1x1 d) = [[Fin 0]]).
  { rewrite d2a_rows. reflexivity. }
  split; [| split; [exact EA | rewrite EA; split]].
  - destruct (row_state_visited (D_1x1 d) 1 (flog (perplexity self))
                (eps self) 0) as [Hv Hstop].
    change (off_diagonal (D_1x1 d) 1 0) with (@nil float) in Hv.
    pose proof (empty_row_off_target _ _ _ Hv) as Hoff.
    destruct (visited_inv _ _ _ _ Hv) as [_ [_ [_ [_ Ht]]]].
    unfold continue in Hstop. rewrite Hoff in Hstop. cbn [andb] in Hstop.
    apply Z.ltb_ge in Hstop. unfold max_tries in *. lia.
  - unfold _a2b, np_sum_axis1, np_sum. cbn.
    rewrite (Reqb_true (0 + 0) 0) by lra. rewrite Reqb_true by lra.
    reflexivity.
  - unfold _a2b, np_sum_axis1, np_sum. cbn.
    rewrite (Reqb_true (0 + 0) 0) by lra. rewrite Reqb_true by lra.
    reflexivity.
Qed.

(** ** Rows of the affinity matrix *)

(** X6.  Row [i] of [_d2a D] depends on [D] only through its row [i] (and
    the number of rows): two matrices of the same size with the same row
    [i] have the same row [i] of affinities, so rows can be calibrated in
    any order. *)
Theorem d2a_row_local (self : SOS) (D D' : matrix) (i : nat) :
  length D = length D' -> (i < length D)%nat ->
  nth i D [] = nth i D' [] ->
  nth i (_d2a self D) [] = nth i (_d2a self D') [].
Proof.
  intros Hlen Hi Hrow. rewrite !d2a_rows, <- Hlen.
  rewrite !nth_map_seq by exact Hi.
  unfold affinity_row, row_state, off_diagonal. rewrite Hrow. reflexivity.
Qed.

Lemma d2a_row_local_witness :
  length D_2x2 = length [[Fin 0; Fin 1]; [Fin 7; Fin 0]] /\
  nth 0 (_d2a (SOS_named "euclidean") D_2x2) [] =
  nth 0 (_d2a (SOS_named "euclidean") [[Fin 0; Fin 1]; [Fin 7; Fin 0]]) [].
Proof.
  split; [reflexivity |].
  apply (d2a_row_local (SOS_named "euclidean") D_2x2
           [[Fin 0; Fin 1]; [Fin 7; Fin 0]] 0).
  - reflexivity.
  - simpl. lia.
  - reflexivity.
Defined.

(** ** The shape of the binding probabilities *)

Lemma binding_shape (self : SOS) (n : nat) (D : matrix) :
  rectangular n n D -> rectangular n n (_a2b (_d2a self D)).
Proof.
  intros [Hn _]. apply a2b_shape. rewrite <- Hn at 1 2. apply d2a_shape.
Qed.

(** ** The facade *)

Lemma x2d_metric_only (scipy : option (string -> matrix -> exn + matrix))
  (s s' : SOS) (X : matrix) :
  metric s = metric s' -> _x2d scipy s X = _x2d scipy s' X.
Proof. intros E. unfold _x2d. rewrite E. reflexivity. Qed.

Lemma d2a_configuration_only (s s' : SOS) (D : matrix) :
  perplexity s = perplexity s' -> eps s = eps s' -> _d2a s D = _d2a s' D.
Proof. intros Ep Ee. unfold _d2a. rewrite Ep, Ee. reflexivity. Qed.

(** The four stages, as [fit] and [decision_function] run them. *)
Lemma pipeline_run (scipy : option (string -> matrix -> exn + matrix))
  (self : SOS) (X D : matrix) :
  check_is_fitted self = inr tt -> check_array X = inr X ->
  _x2d scipy self X = inr D ->
  decision_function scipy self X =
  ([Computed_D D; Computed_A (_d2a self D);
    Computed_B (_a2b (_d2a self D));
    Computed_O (_b2o (_a2b (_d2a self D)))],
   inr (_b2o (_a2b (_d2a self D)))).
Proof.
  intros Hfit Hcheck HD. unfold decision_function.
  rewrite Hfit, Hcheck. cbn [call bind]. rewrite HD. reflexivity.
Qed.

Lemma fit_run (scipy : option (string -> matrix -> exn + matrix))
  (_set_n_classes _process_decision_scores : SOS -> SOS)
  (self : SOS) (X D : matrix) :
  check_array X = inr X ->
  _x2d scipy (_set_n_classes self) X = inr D ->
  let self' := _set_n_classes self in
  let O := _b2o (_a2b (_d2a self' D)) in
  fit scipy _set_n_classes _process_decision_scores self X =
  ([Computed_D D; Computed_A (_d2a self' D);
    Computed_B (_a2b (_d2a self' D)); Computed_O O],
   inr (_process_decision_scores (with_scores self' O))).
Proof.
  intros Hcheck HD self' O. unfold fit.
  rewrite Hcheck. cbn [call bind]. rewrite HD. reflexivity.
Qed.

Lemma check_array_returns_input (X X' : matrix) :
  check_array X = inr X' -> X' = X.
Proof.
  unfold check_array. destruct (negb (all_finite X)); [discriminate |].
  destruct (nrows X <? 1)%nat; [discriminate |].
  destruct (ncols X <? 1)%nat; [discriminate |].
  intros E. injection E as <-. reflexivity.
Qed.

(** X11.  [decision_function] on a detector that lacks one of
    [decision_scores_], [threshold_] and [labels_] (in particular one
    fresh from the constructor) raises [NotFittedError] before it looks
    at its input: no validation, no stage. *)
Theorem unfitted_raises (scipy : option (string -> matrix -> exn + matrix))
  (self : SOS) (X : matrix) :
  decision_scores_ self = None \/ threshold_ self = None \/
  labels_ self = None ->
  decision_function scipy self X = ([], inl NotFittedError).
Proof.
  intros Hnone. unfold decision_function.
  assert (E : check_is_fitted self = inl NotFittedError).
  { unfold check_is_fitted.
    destruct (decision_scores_ self), (threshold_ self), (labels_ self);
      try reflexivity.
    destruct Hnone as [H | [H | H]]; discriminate H. }
  rewrite E. reflexivity.
Qed.

Lemma unfitted_raises_witness :
  decision_scores_ (SOS_named "euclidean") = None /\
  decision_function None (SOS_named "euclidean") [] = ([], inl NotFittedError).
Proof.
  split; [reflexivity |].
  apply (unfitted_raises None (SOS_named "euclidean") []).
  left. reflexivity.
Defined.

(** X12.  [decision_function] uses nothing of the fitted state but its
    presence: two fitted detectors with the same perplexity, metric and
    tolerance return the same scores (and errors) on every input,
    whatever data each was fitted on. *)
Theorem decision_function_stateless
  (scipy : option (string -> matrix -> exn + matrix))
  (s s' : SOS) (X : matrix) :
  same_configuration s s' ->
  check_is_fitted s = inr tt -> check_is_fitted s' = inr tt ->
  decision_function scipy s X = decision_function scipy s' X.
Proof.
  intros [Ep [Em Ee]] Hs Hs'. unfold decision_function.
  rewrite Hs, Hs'. cbn [call bind].
  destruct (check_array X) as [e | X0]; [reflexivity |].
  rewrite (x2d_metric_only scipy s s' X0 Em).
  destruct (_x2d scipy s' X0) as [e | D]; [reflexivity |].
  cbn [stage bind ret app].
  rewrite (d2a_configuration_only s s' D Ep Ee). reflexivity.
Qed.

Lemma decision_function_stateless_witness :
  same_configuration
    (mark_processed (with_scores (SOS_named "euclidean") [Fin 0]))
    (mark_processed (with_scores (SOS_named "euclidean") [Fin 1; Fin 1])) /\
  decision_function None
    (mark_processed (with_scores (SOS_named "euclidean") [Fin 0])) X_2x1 =
  decision_function None
    (mark_processed (with_scores (SOS_named "euclidean") [Fin 1; Fin 1])) X_2x1.
Proof.
  assert (Hc : same_configuration
            (mark_processed (with_scores (SOS_named "euclidean") [Fin 0]))
            (mark_processed (with_scores (SOS_named "euclidean") [Fin 1; Fin 1])))
    by (repeat split).
  split; [exact Hc |].
  apply (decision_function_stateless None _ _ X_2x1 Hc); reflexivity.
Defined.

(** X13.  When the methods of the base class keep the configuration and
    [_process_decision_scores] keeps the stored scores and sets threshold
    and labels, a successful [fit] on [X] stores exactly the scores that
    [decision_function], called on the fitted detector with the same
    [X], returns, and both run the same stages. *)
Theorem fit_then_decision_function
  (scipy : option (string -> matrix -> exn + matrix))
  (_set_n_classes _process_decision_scores : SOS -> SOS)
  (self fitted : SOS) (X : matrix) (tr : list event) :
  keeps_configuration _process_decision_scores ->
  completes_fit _process_decision_scores ->
  fit scipy _set_n_classes _process_decision_scores self X
    = (tr, inr fitted) ->
  exists O,
    decision_scores_ fitted = Some O /\
    decision_function scipy fitted X = (tr, inr O).
Proof.
  intros Hkeep Hdone Hfit.
  destruct (check_array X) as [e | X0] eqn:Echeck.
  { unfold fit in Hfit. rewrite Echeck in Hfit. discriminate Hfit. }
  pose proof (check_array_returns_input X X0 Echeck) as ->.
  destruct (_x2d scipy (_set_n_classes self) X) as [e | D] eqn:ED.
  { unfold fit in Hfit. rewrite Echeck in Hfit. cbn [call bind] in Hfit.
    rewrite ED in Hfit. discriminate Hfit. }
  rewrite (fit_run scipy _set_n_classes _process_decision_scores self X D
             Echeck ED) in Hfit.
  injection Hfit as Htr Hfitted.
  set (self' := _set_n_classes self) in *.
  set (O := _b2o (_a2b (_d2a self' D))) in *.
  destruct (Hkeep (with_scores self' O)) as [Ep [Em Ee]].
  destruct (Hdone (with_scores self' O)) as [Es [Ht Hl]].
  rewrite Hfitted in Ep, Em, Ee, Es, Ht, Hl. cbn in Ep, Em, Ee, Es.
  exists O. split; [exact Es |].
  assert (Hok : check_is_fitted fitted = inr tt).
  { unfold check_is_fitted. rewrite Es.
    destruct (threshold_ fitted); [| contradiction].
    destruct (labels_ fitted); [reflexivity | contradiction]. }
  assert (ED' : _x2d scipy fitted X = inr D)
    by (rewrite (x2d_metric_only scipy fitted self' X Em); exact ED).
  rewrite (pipeline_run scipy fitted X D Hok Echeck ED').
  rewrite (d2a_configuration_only fitted self' D Ep Ee).
  fold O. rewrite <- Htr. reflexivity.
Qed.

Lemma mark_processed_keeps : keeps_configuration mark_processed.
Proof. intros s. repeat split. Qed.

Lemma mark_processed_completes : completes_fit mark_processed.
Proof. intros s. repeat split; discriminate. Qed.

Lemma fit_then_decision_function_witness :
  keeps_configuration mark_processed /\ completes_fit mark_processed /\
  exists tr fitted O,
    fit None (fun s => s) mark_processed (SOS_named "euclidean") X_2x1
      = (tr, inr fitted) /\
    decision_scores_ fitted = Some O /\
    decision_function None fitted X_2x1 = (tr, inr O).
Proof.
  split; [exact mark_processed_keeps | split; [exact mark_processed_completes |]].
  destruct (x2d_euclidean None (SOS_named "euclidean") 2 1 X_2x1
              X_2x1_shape eq_refl) as [D [HD _]].
  pose proof (fit_run None (fun s => s) mark_processed
                (SOS_named "euclidean") X_2x1 D eq_refl HD) as Hfit.
  cbv zeta in Hfit.
  destruct (fit_then_decision_function None (fun s => s) mark_processed
              (SOS_named "euclidean") _ X_2x1 _
              mark_processed_keeps mark_processed_completes Hfit)
    as [O [HO Hdf]].
  eexists. eexists. exists O.
  split; [exact Hfit | split; [exact HO | exact Hdf]].
Defined.

(** X14.  On a fitted detector with the metric ["euclidean"], an input
    of [n] samples that passes the validation goes through the four
    stages in order: [_x2d] does not raise, the dissimilarity matrix is
    [n] by [n], and [decision_function] returns [n] scores. *)
Theorem decision_function_scores
  (scipy : option (string -> matrix -> exn + matrix))
  (self : SOS) (n d : nat) (X : matrix) :
  rectangular n d X ->
  metric self = "euclidean"%string ->
  check_is_fitted self = inr tt -> check_array X = inr X ->
  exists D A B O,
    decision_function scipy self X =
      ([Computed_D D; Computed_A A; Computed_B B; Computed_O O], inr O) /\
    rectangular n n D /\ length O = n.
Proof.
  intros HX Hm Hfit Hcheck.
  destruct (x2d_euclidean scipy self n d X HX Hm) as [D [HD [Hshape _]]].
  exists D, (_d2a self D), (_a2b (_d2a self D)),
         (_b2o (_a2b (_d2a self D))).
  split; [apply pipeline_run; assumption | split; [exact Hshape |]].
  apply b2o_length. apply binding_shape. exact Hshape.
Qed.

Lemma decision_function_scores_witness :
  rectangular 2 1 X_2x1 /\
  exists D A B O,
    decision_function None
      (mark_processed (with_scores (SOS_named "euclidean") [])) X_2x1 =
      ([Computed_D D; Computed_A A; Computed_B B; Computed_O O], inr O) /\
    length O = 2%nat.
Proof.
  split; [exact X_2x1_shape |].
  destruct (decision_function_scores None
              (mark_processed (with_scores (SOS_named "euclidean") []))
              2 1 X_2x1 X_2x1_shape)
    as [D [A [B [O [Hrun [_ Hlen]]]]]]; try reflexivity.
  exists D, A, B, O. split; [exact Hrun | exact Hlen].
Defined.

(** X15.  [fit] with the metric ["euclidean"] on an input of [n] samples
    that passes the validation does not raise: it runs the four stages in
    order, the dissimilarity matrix is [n] by [n], and it hands
    [_process_decision_scores] the detector with [decision_scores_] set to
    the [n] scores. *)
Theorem fit_scores
  (scipy : option (string -> matrix -> exn + matrix))
  (_set_n_classes _process_decision_scores : SOS -> SOS)
  (self : SOS) (n d : nat) (X : matrix) :
  rectangular n d X ->
  metric (_set_n_classes self) = "euclidean"%string ->
  check_array X = inr X ->
  exists D A B O,
    fit scipy _set_n_classes _process_decision_scores self X =
      ([Computed_D D; Computed_A A; Computed_B B; Computed_O O],
       inr (_process_decision_scores
              (with_scores (_set_n_classes self) O))) /\
    rectangular n n D /\ length O = n.
Proof.
  intros HX Hm Hcheck.
  destruct (x2d_euclidean scipy (_set_n_classes self) n d X HX Hm)
    as [D [HD [Hshape _]]].
  exists D, (_d2a (_set_n_classes self) D),
         (_a2b (_d2a (_set_n_classes self) D)),
         (_b2o (_a2b (_d2a (_set_n_classes self) D))).
  split; [apply fit_run; assumption | split; [exact Hshape |]].
  apply b2o_length. apply binding_shape. exact Hshape.
Qed.

Lemma fit_scores_witness :
  rectangular 2 1 X_2x1 /\
  exists D A B O,
    fit None (fun s => s) mark_processed (SOS_named "euclidean") X_2x1 =
      ([Computed_D D; Computed_A A; Computed_B B; Computed_O O],
       inr (mark_processed (with_scores (SOS_named "euclidean") O))) /\
    length O = 2%nat.
Proof.
  split; [exact X_2x1_shape |].
  destruct (fit_scores None (fun s => s) mark_processed
              (SOS_named "euclidean") 2 1 X_2x1 X_2x1_shape)
    as [D [A [B [O [Hrun [_ Hlen]]]]]]; try reflexivity.
  exists D, A, B, O. split; [exact Hrun | exact Hlen].
Defined.

(** ** What [_d2a] reads *)

Lemma off_diagonal_same (n : nat) (D D' : matrix) (i : nat) :
  same_off_diagonal n D D' -> (i < n)%nat ->
  off_diagonal D n i = off_diagonal D' n i.
Proof.
  intros Hsame Hi. unfold off_diagonal, take. apply map_ext_in.
  intros j Hj. apply others_in in Hj; [| exact Hi].
  apply (Hsame i j); tauto.
Qed.

(** X18.  [_d2a] never reads the diagonal of the dissimilarity matrix:
    two matrices of [n] rows that agree off the diagonal have the same
    affinity matrix. *)
Theorem d2a_ignores_diagonal (self : SOS) (n : nat) (D D' : matrix) :
  length D = n -> length D' = n -> same_off_diagonal n D D' ->
  _d2a self D = _d2a self D'.
Proof.
  intros Hn Hn' Hsame. rewrite !d2a_rows, Hn, Hn'.
  apply map_ext_in. intros i Hi. apply in_seq in Hi.
  unfold affinity_row, row_state.
  rewrite (off_diagonal_same n D D' i Hsame) by lia. reflexivity.
Qed.

Lemma d2a_ignores_diagonal_witness :
  same_off_diagonal 2 D_2x2 [[Fin 5; Fin 1]; [Fin 1; NaN]] /\
  _d2a (SOS_named "euclidean") D_2x2 =
  _d2a (SOS_named "euclidean") [[Fin 5; Fin 1]; [Fin 1; NaN]].
Proof.
  assert (Hs : same_off_diagonal 2 D_2x2 [[Fin 5; Fin 1]; [Fin 1; NaN]]).
  { intros [|[|i]] [|[|j]] Hi Hj Hne; try lia; reflexivity. }
  split; [exact Hs |].
  apply (d2a_ignores_diagonal (SOS_named "euclidean") 2); auto.
Defined.

(** ** The branches of [_x2d] seen from [fit] *)

Lemma fit_raises (scipy : option (string -> matrix -> exn + matrix))
  (_set_n_classes _process_decision_scores : SOS -> SOS)
  (self : SOS) (X : matrix) (e : exn) :
  check_array X = inr X ->
  _x2d scipy (_set_n_classes self) X = inl e ->
  fit scipy _set_n_classes _process_decision_scores self X = ([], inl e).
Proof.
  intros Hcheck HD. unfold fit.
  rewrite Hcheck. cbn [call bind]. rewrite HD. reflexivity.
Qed.

Lemma rectangular_shape (n d : nat) (X : matrix) :
  rectangular n d X -> (0 < n)%nat -> shape X = (n, d).
Proof.
  intros [Hn HX] Hpos. unfold shape, nrows, ncols. rewrite Hn. f_equal.
  destruct X as [|row X]; [cbn in Hn; lia |].
  apply Forall_cons_iff in HX as [Hrow _]. exact Hrow.
Qed.

Lemma x2d_precomputed (scipy : option (string -> matrix -> exn + matrix))
  (self : SOS) (n d : nat) (X : matrix) :
  rectangular n d X -> (0 < n)%nat -> metric self = "none"%string ->
  _x2d scipy self X =
  if (n =? d)%nat then inr X else inl (ValueError msg_not_square).
Proof.
  intros HX Hpos Hm. unfold _x2d.
  rewrite (rectangular_shape n d X HX Hpos), Hm.
  cbn [String.eqb Ascii.eqb Bool.eqb]. cbv iota.
  destruct (n =? d)%nat; reflexivity.
Qed.

(** X19.  [fit] with the metric ['none'] on an input of [n >= 1] rows of
    [d] cells that passes the validation: when [n <> d] it raises the
    [ValueError] of [_x2d] before any stage has produced an array; when
    [n = d] it does not raise, the dissimilarity matrix is the input
    itself, and it stores [n] scores. *)
Theorem fit_precomputed
  (scipy : option (string -> matrix -> exn + matrix))
  (_set_n_classes _process_decision_scores : SOS -> SOS)
  (self : SOS) (n d : nat) (X : matrix) :
  rectangular n d X -> (1 <= n)%nat ->
  metric (_set_n_classes self) = "none"%string ->
  check_array X = inr X ->
  (n <> d ->
   fit scipy _set_n_classes _process_decision_scores self X =
   ([], inl (ValueError msg_not_square))) /\
  (n = d ->
   exists A B O,
     fit scipy _set_n_classes _process_decision_scores self X =
       ([Computed_D X; Computed_A A; Computed_B B; Computed_O O],
        inr (_process_decision_scores
               (with_scores (_set_n_classes self) O))) /\
     length O = n).
Proof.
  intros HX Hn1 Hm Hcheck.
  assert (Hpos : (0 < n)%nat) by lia.
  pose proof (x2d_precomputed scipy (_set_n_classes self) n d X HX Hpos Hm)
    as HD.
  split.
  - intros Hne. apply Nat.eqb_neq in Hne. rewrite Hne in HD.
    apply fit_raises; assumption.
  - intros Heq. subst d. rewrite Nat.eqb_refl in HD.
    exists (_d2a (_set_n_classes self) X),
           (_a2b (_d2a (_set_n_classes self) X)),
           (_b2o (_a2b (_d2a (_set_n_classes self) X))).
    split; [apply fit_run; assumption |].
    apply b2o_length. apply binding_shape. exact HX.
Qed.

Lemma D_3x3_shape : rectangular 3 3 D_3x3.
Proof. split; [reflexivity | repeat constructor]. Qed.

Lemma fit_precomputed_witness :
  rectangular 3 3 D_3x3 /\ (1 <= 3)%nat /\
  exists A B O,
    fit None (fun s => s) mark_processed (SOS_named "none") D_3x3 =
      ([Computed_D D_3x3; Computed_A A; Computed_B B; Computed_O O],
       inr (mark_processed (with_scores (SOS_named "none") O))) /\
    length O = 3%nat.
Proof.
  assert (H1 : (1 <= 3)%nat) by lia.
  split; [exact D_3x3_shape | split; [exact H1 |]].
  destruct (fit_precomputed None (fun s => s) mark_processed
              (SOS_named "none") 3 3 D_3x3 D_3x3_shape H1
              eq_refl eq_refl) as [_ Hsquare].
  destruct (Hsquare eq_refl) as [A [B [O [Hrun Hlen]]]].
  exists A, B, O. split; [exact Hrun | exact Hlen].
Defined.

(** X20.  [fit] with a metric other than ['none'] and ['euclidean'] on an
    input that passes the validation: without scipy it raises the
    [ImportError] of [_x2d] and no stage produces an array; with scipy the
    dissimilarity matrix is what scipy's routine returns for that metric
    and the input, an exception of the routine is the exception of [fit],
    and the three later stages run on the matrix it returns. *)
Theorem fit_other_metric
  (scipy : option (string -> matrix -> exn + matrix))
  (_set_n_classes _process_decision_scores : SOS -> SOS)
  (self : SOS) (X : matrix) :
  metric (_set_n_classes self) <> "none"%string ->
  metric (_set_n_classes self) <> "euclidean"%string ->
  check_array X = inr X ->
  (scipy = None ->
   fit scipy _set_n_classes _process_decision_scores self X =
   ([], inl (ImportError msg_no_scipy))) /\
  (forall dist e, scipy = Some dist ->
   dist (metric (_set_n_classes self)) X = inl e ->
   fit scipy _set_n_classes _process_decision_scores self X = ([], inl e)) /\
  (forall dist D, scipy = Some dist ->
   dist (metric (_set_n_classes self)) X = inr D ->
   let self' := _set_n_classes self in
   let O := _b2o (_a2b (_d2a self' D)) in
   fit scipy _set_n_classes _process_decision_scores self X =
   ([Computed_D D; Computed_A (_d2a self' D);
     Computed_B (_a2b (_d2a self' D)); Computed_O O],
    inr (_process_decision_scores (with_scores self' O)))).
Proof.
  intros Hnone Heuc Hcheck.
  apply String.eqb_neq in Hnone, Heuc.
  assert (HD : _x2d scipy (_set_n_classes self) X =
               match scipy with
               | None => inl (ImportError msg_no_scipy)
               | Some dist => dist (metric (_set_n_classes self)) X
               end).
  { unfold _x2d, shape. rewrite Hnone, Heuc. reflexivity. }
  split; [| split].
  - intros ->. apply fit_raises; assumption.
  - intros dist e -> He. rewrite He in HD. apply fit_raises; assumption.
  - intros dist D -> Hd. rewrite Hd in HD. apply fit_run; assumption.
Qed.

Lemma fit_other_metric_witness :
  fit None (fun s => s) mark_processed
    (__init__ default_contamination default_perplexity "Cityblock"
       default_eps) X_2x1 =
  ([], inl (ImportError msg_no_scipy)).
Proof.
  apply (fit_other_metric None (fun s => s) mark_processed
           (__init__ default_contamination default_perplexity "Cityblock"
              default_eps) X_2x1); try reflexivity; discriminate.
Defined.

(** ** The validation accepts a single row *)

Lemma a2b_single_zero : _a2b [[Fin 0]] = [[NaN]].
Proof.
  unfold _a2b, np_sum_axis1, np_sum. cbn.
  rewrite (Reqb_true (0 + 0) 0) by lra. rewrite Reqb_true by lra.
  reflexivity.
Qed.

Lemma x2d_single_row :
  _x2d None (SOS_named "euclidean") [[Fin 0; Fin 1]] = inr [[Fin 0]].
Proof.
  assert (HX : rectangular 1 2 [[Fin 0; Fin 1]])
    by (split; [reflexivity | repeat constructor]).
  destruct (x2d_euclidean None (SOS_named "euclidean") 1 2 _ HX eq_refl)
    as [D [HD [Hshape Hcell]]].
  rewrite HD. f_equal. apply (matrix_ext 1 1); [exact Hshape | |].
  - split; [reflexivity | repeat constructor].
  - intros i j Hi Hj. assert (i = 0%nat) by lia. assert (j = 0%nat) by lia.
    subst i j. rewrite Hcell by lia.
    change (nth 0 [[Fin 0; Fin 1]] []) with (map Fin [0; 1]).
    rewrite euclidean_cell_fin by reflexivity.
    unfold Rsum. cbn [map2 fold_left].
    replace (0 + (0 - 0) * (0 - 0) + (1 - 1) * (1 - 1)) with 0 by ring.
    rewrite sqrt_0. reflexivity.
Qed.

(** C8, as stated, fails: nothing in [fit] asks for two rows, and the
    validation accepts a single one.  On the one-row input [[0, 1]] the
    four stages run, and the score of the only sample is NaN. *)
Lemma single_row_is_accepted :
  check_array [[Fin 0; Fin 1]] = inr [[Fin 0; Fin 1]] /\
  fit None (fun self => self) (fun self => self) (SOS_named "euclidean")
      [[Fin 0; Fin 1]]
  = ([Computed_D [[Fin 0]]; Computed_A [[Fin 0]]; Computed_B [[NaN]];
      Computed_O [NaN]],
     inr (with_scores (SOS_named "euclidean") [NaN])) /\
  ~ (forall scipy _set_n_classes _process_decision_scores self X,
       (nrows X < 2)%nat ->
       exists msg,
         fit scipy _set_n_classes _process_decision_scores self X
         = ([], inl (ValueError msg))).
Proof.
  assert (Hfit :
    fit None (fun self => self) (fun self => self) (SOS_named "euclidean")
        [[Fin 0; Fin 1]]
    = ([Computed_D [[Fin 0]]; Computed_A [[Fin 0]]; Computed_B [[NaN]];
        Computed_O [NaN]],
       inr (with_scores (SOS_named "euclidean") [NaN]))).
  { rewrite (fit_run None (fun self => self) (fun self => self)
               (SOS_named "euclidean") [[Fin 0; Fin 1]] [[Fin 0]]
               eq_refl x2d_single_row).
    assert (EA : _d2a (SOS_named "euclidean") [[Fin 0]] = [[Fin 0]])
      by (rewrite d2a_rows; reflexivity).
    rewrite EA, a2b_single_zero. reflexivity. }
  split; [reflexivity | split; [exact Hfit |]].
  intros Hclaim.
  destruct (Hclaim None (fun self => self) (fun self => self)
              (SOS_named "euclidean") [[Fin 0; Fin 1]]) as [msg Hmsg].
  - unfold nrows. simpl. lia.
  - rewrite Hfit in Hmsg. discriminate Hmsg.
Qed.

(* ===================================================================== *)
(** * Part IV.  Properties in binary64 arithmetic *)
(* ===================================================================== *)

(** ** Binary64: signs and special values of the results

    The operations of the primitive floats are specified by the Standard
    Library on [spec_float], the sign, mantissa and exponent of a value;
    the lemmas below read off these specifications which kind of value an
    operation returns. *)

Section Binary64Values.
Import Floats.
Import Binary64.
Local Open Scope float_scope.

Lemma shr_1_nonneg (mrs : shr_record) :
  (0 <= shr_m mrs)%Z -> (0 <= shr_m (shr_1 mrs))%Z.
Proof.
  destruct mrs as [m r s]. cbn [shr_m]. intros Hm.
  destruct m as [|p|p]; [| destruct p | lia]; cbn; lia.
Qed.

Lemma iter_pos_invariant {A : Type} (P : A -> Prop) (f : A -> A) :
  (forall x, P x -> P (f x)) ->
  forall (p : BinNums.positive) (x : A), P x -> P (SpecFloat.iter_pos f p x).
Proof.
  intros Hf. induction p as [p IH | p IH |]; intros x Hx; cbn.
  - apply IH, IH, Hf, Hx.
  - apply IH, IH, Hx.
  - apply Hf, Hx.
Qed.

Lemma shr_fexp_nonneg (m e : Z) (l : location) :
  (0 <= m)%Z -> (0 <= shr_m (fst (shr_fexp prec emax m e l)))%Z.
Proof.
  intros Hm. unfold shr_fexp, shr.
  assert (H0 : (0 <= shr_m (shr_record_of_loc m l))%Z)
    by (destruct l as [|[| |]]; exact Hm).
  destruct (fexp prec emax (Zdigits2 m + e) - e)%Z as [|p|p]; cbn [fst];
    try exact H0.
  apply (iter_pos_invariant (fun mrs => (0 <= shr_m mrs)%Z));
    [apply shr_1_nonneg | exact H0].
Qed.

Lemma round_nearest_even_nonneg (m : Z) (l : location) :
  (0 <= m)%Z -> (0 <= round_nearest_even m l)%Z.
Proof.
  intros Hm. unfold round_nearest_even.
  destruct l as [|[| |]]; try destruct (Z.even m); lia.
Qed.

(** The values of one sign: a rounded result keeps the sign it was given,
    whether it is a zero, a finite number or an infinity. *)
Lemma binary_round_aux_signed (s : bool) (m e : Z) (l : location) :
  (0 <= m)%Z -> signed s (binary_round_aux prec emax s m e l).
Proof.
  intros Hm. unfold binary_round_aux.
  pose proof (shr_fexp_nonneg m e l Hm) as H1.
  destruct (shr_fexp prec emax m e l) as [mrs' e']. cbn [fst] in H1.
  pose proof (shr_fexp_nonneg _ e' loc_Exact
                (round_nearest_even_nonneg _ (loc_of_shr_record mrs') H1))
    as H2.
  destruct (shr_fexp prec emax
              (round_nearest_even (shr_m mrs') (loc_of_shr_record mrs')) e'
              loc_Exact) as [mrs'' e''].
  cbn [fst] in H2.
  destruct (shr_m mrs'') as [|p|p]; [reflexivity | | lia].
  destruct (e'' <=? emax - prec)%Z; reflexivity.
Qed.

Lemma binary_round_signed (s : bool) (m : BinNums.positive) (e : Z) :
  signed s (binary_round prec emax s m e).
Proof.
  unfold binary_round.
  destruct (shl_align m e (fexp prec emax (Z.pos (digits2_pos m) + e)))
    as [mz ez].
  apply binary_round_aux_signed. lia.
Qed.

Lemma signed_not_nan (s : bool) (x : spec_float) :
  signed s x -> x <> S754_nan.
Proof. intros Hx ->. exact Hx. Qed.

Lemma nonneg_spec (x : float) :
  (0 <=? x) = true <-> at_least_zero (Prim2SF x).
Proof.
  rewrite leb_spec. change (Prim2SF 0) with (S754_zero false).
  unfold SFleb, at_least_zero. cbn [SFcompare].
  destruct (Prim2SF x) as [s | [|] | | [|] m e]; cbn; intuition congruence.
Qed.

Lemma signed_at_least_zero (x : spec_float) :
  signed false x -> at_least_zero x.
Proof. destruct x as [s | s | | s m e]; cbn; intros; subst; auto. Qed.

Lemma div_at_least_zero (x : spec_float) (m : BinNums.positive) (e : Z) :
  at_least_zero x -> at_least_zero (SF64div x (S754_finite false m e)).
Proof.
  intros Hx.
  destruct x as [s | [|] | | [|] mx ex]; cbn in Hx |- *;
    try discriminate; try contradiction; try reflexivity.
  unfold SF64div, SFdiv.
  destruct (SFdiv_core_binary prec emax (Z.pos mx) ex (Z.pos m) e)
    as [[mz ez] lz] eqn:Ecore.
  apply signed_at_least_zero. apply binary_round_aux_signed.
  unfold SFdiv_core_binary in Ecore.
  set (m' := match (ex - e - Z.min (fexp prec emax (Zdigits2 (Z.pos mx) + ex - (Zdigits2 (Z.pos m) + e))) (ex - e))%Z with
             | Z0 => Z.pos mx
             | Z.pos _ => Z.shiftl (Z.pos mx) (ex - e - Z.min (fexp prec emax (Zdigits2 (Z.pos mx) + ex - (Zdigits2 (Z.pos m) + e))) (ex - e))
             | Z.neg _ => 0%Z
             end) in Ecore.
  assert (Hm' : (0 <= m')%Z).
  { unfold m'. destruct (ex - e - _)%Z; try lia. apply Z.shiftl_nonneg. lia. }
  pose proof (Z.div_pos m' (Z.pos m) Hm' ltac:(lia)) as Hq.
  unfold Z.div in Hq. destruct (Z.div_eucl m' (Z.pos m)) as [q r].
  injection Ecore as <- _ _. exact Hq.
Qed.

End Binary64Values.

(** ** Binary64: the precision of a row *)

Section Binary64Precision.
Import Floats.
Import Binary64.
Local Open Scope float_scope.

Lemma mul_at_least_zero (x : spec_float) (m : BinNums.positive) (e : Z) :
  at_least_zero x -> at_least_zero (SF64mul x (S754_finite false m e)).
Proof.
  intros Hx.
  destruct x as [s | [|] | | [|] mx ex]; cbn in Hx |- *;
    try discriminate; try contradiction; try reflexivity.
  apply signed_at_least_zero. apply binary_round_aux_signed. lia.
Qed.

Lemma add_at_least_zero (x y : spec_float) :
  at_least_zero x -> at_least_zero y -> at_least_zero (SF64add x y).
Proof.
  intros Hx Hy.
  destruct x as [sx | [|] | | [|] mx ex]; cbn in Hx; try discriminate;
    try contradiction;
    destruct y as [sy | [|] | | [|] my ey]; cbn in Hy; try discriminate;
      try contradiction; try reflexivity.
  - destruct sx, sy; exact I.
  - unfold SF64add, SFadd. cbn [cond_Zopp].
    set (a := fst (shl_align mx ex (Z.min ex ey))).
    set (b := fst (shl_align my ey (Z.min ex ey))).
    change (Z.pos a + Z.pos b)%Z with (Z.pos (a + b)).
    cbn [binary_normalize].
    apply signed_at_least_zero, binary_round_signed.
Qed.

Lemma div_nonneg (x c : float) (m : BinNums.positive) (e : Z) :
  Prim2SF c = S754_finite false m e ->
  (0 <=? x) = true -> (0 <=? x / c) = true.
Proof.
  intros Hc Hx. apply nonneg_spec. rewrite div_spec, Hc.
  apply div_at_least_zero, nonneg_spec, Hx.
Qed.

Lemma mul_nonneg (x c : float) (m : BinNums.positive) (e : Z) :
  Prim2SF c = S754_finite false m e ->
  (0 <=? x) = true -> (0 <=? x * c) = true.
Proof.
  intros Hc Hx. apply nonneg_spec. rewrite mul_spec, Hc.
  apply mul_at_least_zero, nonneg_spec, Hx.
Qed.

Lemma add_nonneg (x y : float) :
  (0 <=? x) = true -> (0 <=? y) = true -> (0 <=? x + y) = true.
Proof.
  intros Hx Hy. apply nonneg_spec. rewrite add_spec.
  apply add_at_least_zero; apply nonneg_spec; assumption.
Qed.

Lemma bounded_is_nonneg (b inf : float) :
  unbounded inf = true ->
  (b = inf \/ (0 <=? b) = true) -> unbounded b = false ->
  (0 <=? b) = true.
Proof.
  intros Hinf [-> | Hb] Hu; [congruence | exact Hb].
Qed.

Lemma adjust_bounds (s : calib) :
  bounds_inv s ->
  let '(b, bmin, bmax) := adjust s in
  (0 <=? b) = true /\
  (bmin = neg_infinity \/ (0 <=? bmin) = true) /\
  (bmax = infinity \/ (0 <=? bmax) = true).
Proof.
  intros [Hb [Hmin Hmax]]. unfold adjust.
  destruct (is_nan (Hdiff s)).
  { split; [| split; assumption].
    apply (div_nonneg _ 10 5629499534213120 (-49)); [reflexivity | exact Hb]. }
  destruct (0 <? Hdiff s).
  - destruct (unbounded (betamax s)) eqn:Eu.
    + split; [| split; [right; exact Hb | exact Hmax]].
      apply (mul_nonneg _ 2 4503599627370496 (-51)); [reflexivity | exact Hb].
    + split; [| split; [right; exact Hb | exact Hmax]].
      apply (div_nonneg _ 2 4503599627370496 (-51)); [reflexivity |].
      apply add_nonneg; [exact Hb |].
      apply (bounded_is_nonneg _ infinity); [reflexivity | exact Hmax | exact Eu].
  - destruct (unbounded (betamin s)) eqn:Eu.
    + split; [| split; [exact Hmin | right; exact Hb]].
      apply (div_nonneg _ 2 4503599627370496 (-51)); [reflexivity | exact Hb].
    + split; [| split; [exact Hmin | right; exact Hb]].
      apply (div_nonneg _ 2 4503599627370496 (-51)); [reflexivity |].
      apply add_nonneg; [exact Hb |].
      apply (bounded_is_nonneg _ neg_infinity);
        [reflexivity | exact Hmin | exact Eu].
Qed.

Lemma visited_bounds (np_exp np_log : float -> float)
  (Di : vector) (logU eps : float) (s : calib) :
  visited np_exp np_log Di logU eps s -> bounds_inv s.
Proof.
  induction 1 as [| s Hs IH Hc].
  - unfold entry, _get_perplexity.
    split; [reflexivity | split; left; reflexivity].
  - pose proof (adjust_bounds s IH) as Ha. unfold iteration.
    destruct (adjust s) as [[b bmin] bmax].
    unfold _get_perplexity. exact Ha.
Qed.

End Binary64Precision.

(** ** Binary64: a row whose target is out of reach *)

Section Binary64Underflow.
Import Floats.
Import Binary64.
Local Open Scope float_scope.

Lemma SFcompare_refl (x : spec_float) :
  x <> S754_nan -> SFcompare x x = Some Eq.
Proof.
  destruct x as [s | [|] | | [|] m e]; cbn; try congruence;
    intros _; rewrite Z.compare_refl, Pos.compare_cont_refl; reflexivity.
Qed.

Lemma is_nan_spec (x : float) :
  is_nan x = false <-> Prim2SF x <> S754_nan.
Proof.
  unfold is_nan. rewrite eqb_spec. unfold SFeqb. split.
  - intros H E. rewrite E in H. discriminate H.
  - intros H. rewrite (SFcompare_refl _ H). reflexivity.
Qed.

(** A target above [eps >= 0] is above the entropy 0 by more than the
    tolerance: [Hdiff = 0 - logU] is a number, it is not positive and its
    absolute value exceeds [eps]. *)
Lemma target_above_zero (eps logU : float) :
  (0 <=? eps) = true -> (eps <? logU) = true ->
  is_nan (0 - logU) = false /\ (0 <? 0 - logU) = false /\
  (eps <? abs (0 - logU)) = true.
Proof.
  intros He Hl. apply nonneg_spec in He.
  rewrite ltb_spec in Hl.
  rewrite is_nan_spec, !ltb_spec, abs_spec, sub_spec.
  change (Prim2SF 0) with (S754_zero false).
  destruct (Prim2SF eps) as [se | [|] | | [|] me ee]; cbn in He;
    try discriminate; try contradiction;
    destruct (Prim2SF logU) as [sl | [|] | | [|] ml el];
      cbn in Hl |- *; try discriminate;
      (split; [congruence | split; [reflexivity | exact Hl]]).
Qed.

Lemma halvings_pass_nth (n : nat) (b : float) (k : nat) :
  halvings_pass n b = true -> (k < n)%nat ->
  zero_row_precision (Nat.iter k (fun x => x / 2) b) = true.
Proof.
  revert b k; induction n as [|n IH]; intros b k Hp Hk; [lia |].
  cbn [halvings_pass] in Hp. apply andb_prop in Hp as [Hb Hp].
  destruct k as [|k]; [exact Hb |].
  rewrite Nat.iter_succ_r. apply IH; [exact Hp | lia].
Qed.

Lemma halved_pass (k : nat) :
  (Z.of_nat k <= max_tries)%Z -> zero_row_precision (halved k) = true.
Proof.
  intros Hk. apply (halvings_pass_nth (Z.to_nat (max_tries + 1)) 1).
  - vm_compute. reflexivity.
  - unfold max_tries in *. lia.
Qed.

Section ZeroRow.

Variables np_exp np_log : float -> float.
Hypothesis exp_zero : np_exp neg_zero = 1.
Hypothesis log_one : np_log 1 = 0.

Lemma zero_row_entropy (b : float) :
  zero_row_precision b = true ->
  _get_perplexity np_exp np_log [0] b = (0, [1]).
Proof.
  intros Hb. unfold zero_row_precision in Hb.
  apply andb_prop in Hb as [H1 H2].
  apply Leibniz.eqb_spec in H1, H2.
  unfold _get_perplexity, np_sum. cbn [map map2 fold_left].
  change (- 0 * b) with (- zero * b). rewrite H1, exp_zero.
  change (0 + 1) with 1. rewrite log_one.
  change (b * (0 + 0 * 1) / 1) with (b * (zero + zero * one) / one).
  rewrite H2. reflexivity.
Qed.

Variables eps logU : float.
Hypothesis eps_nonneg : (0 <=? eps) = true.
Hypothesis target_above : (eps <? logU) = true.

Lemma halving_entry :
  entry np_exp np_log [0] logU 1 = halving_state logU 0.
Proof.
  unfold entry. rewrite (zero_row_entropy 1) by reflexivity. reflexivity.
Qed.

Lemma halving_step (k : nat) :
  (Z.of_nat k < max_tries)%Z ->
  continue eps (halving_state logU k) = true /\
  iteration np_exp np_log [0] logU (halving_state logU k)
  = halving_state logU (S k).
Proof.
  intros Hk.
  destruct (target_above_zero eps logU eps_nonneg target_above)
    as [Hnan [Hpos Habs]].
  split.
  - unfold continue, off_target. cbn [Hdiff tries halving_state].
    change zero with 0. rewrite Hnan, Habs. cbn [orb andb].
    apply Z.ltb_lt. exact Hk.
  - unfold iteration, adjust. cbn [Hdiff beta_i betamin betamax tries halving_state].
    change zero with 0. rewrite Hnan, Hpos.
    change (unbounded neg_infinity) with true. cbv iota.
    change (halved k / 2) with (halved (S k)).
    rewrite (zero_row_entropy (halved (S k))) by (apply halved_pass; lia).
    unfold halving_state. f_equal. lia.
Qed.

Lemma halving_run (j k : nat) :
  (Z.of_nat k + Z.of_nat j = max_tries)%Z ->
  search np_exp np_log [0] logU eps (halving_state logU k)
  = halving_state logU (k + j).
Proof.
  revert k; induction j as [|j IH]; intros k Hk.
  - rewrite search_equation. rewrite Nat.add_0_r.
    unfold continue. cbn [tries halving_state].
    replace (Z.of_nat k <? max_tries)%Z with false
      by (symmetry; apply Z.ltb_ge; lia).
    rewrite andb_false_r. reflexivity.
  - destruct (halving_step k) as [Hc Hi]; [lia |].
    rewrite search_equation, Hc, Hi.
    replace (k + S j)%nat with (S k + j)%nat by lia. apply IH. lia.
Qed.

End ZeroRow.

End Binary64Underflow.

Section Binary64Calibration.
Import Floats.
Import Binary64.
Local Open Scope float_scope.

Lemma search_visits (np_exp np_log : float -> float)
  (Di : vector) (logU eps : float) (s : calib) :
  visited np_exp np_log Di logU eps s ->
  visited np_exp np_log Di logU eps (search np_exp np_log Di logU eps s) /\
  continue eps (search np_exp np_log Di logU eps s) = false.
Proof.
  functional induction (search np_exp np_log Di logU eps s)
    as [s Hc IH | s Hc]; intros Hs.
  - apply IH. apply visited_iteration; assumption.
  - split; [exact Hs | exact Hc].
Qed.

(** C9 (as amended).  In binary64 the precision of a row is never NaN and
    never negative: it is 1 on entry to the loop, every iteration the loop
    condition lets run (division by 10, doubling, halving, the mean with a
    stored bound) keeps [0 <= beta_i], and so does the state in which the
    loop ends.  It may be 0 or infinite. *)
Theorem precision_not_negative (np_exp np_log : float -> float)
  (Di : vector) (logU eps : float) (s : calib) :
  visited np_exp np_log Di logU eps s ->
  beta_i (entry np_exp np_log Di logU 1) = 1 /\
  (0 <=? beta_i s) = true /\
  (0 <=? beta_i (search np_exp np_log Di logU eps s)) = true.
Proof.
  intros Hs. split; [reflexivity | split].
  - apply (visited_bounds np_exp np_log Di logU eps s Hs).
  - apply (visited_bounds np_exp np_log Di logU eps).
    apply search_visits. exact Hs.
Qed.

Lemma precision_not_negative_witness :
  visited (fun x => x) (fun x => x) [1] 0 (eps default_SOS) (entry (fun x => x) (fun x => x) [1] 0 1) /\
  (0 <=? beta_i (search (fun x => x) (fun x => x) [1] 0 (eps default_SOS)
                   (entry (fun x => x) (fun x => x) [1] 0 1))) = true.
Proof.
  assert (Hv : visited (fun x => x) (fun x => x) [1] 0 (eps default_SOS)
                 (entry (fun x => x) (fun x => x) [1] 0 1)) by constructor.
  split; [exact Hv |].
  apply (precision_not_negative (fun x => x) (fun x => x) [1] 0 (eps default_SOS) _ Hv).
Defined.

(** C9, as stated, fails in binary64: the precision reaches 0.  Two
    identical samples give each other the dissimilarity 0, the entropy of
    the row is 0 at every precision, and with the default perplexity 4.5
    and tolerance 1e-5 the target [log 4.5] is out of reach: the loop
    halves the precision 5000 times, and 1 halved 1075 times is 0.  This
    holds for every [np.exp] with [exp(-0) = 1] and every [np.log] with
    [log 1 = 0] and [log 4.5 > 1e-5]. *)
Lemma precision_underflows :
  (forall np_exp np_log : float -> float,
     np_exp neg_zero = 1 -> np_log 1 = 0 ->
     (eps default_SOS <? np_log (perplexity default_SOS)) = true ->
     exists s : calib,
       s = search np_exp np_log [0] (np_log (perplexity default_SOS))
             (eps default_SOS)
             (entry np_exp np_log [0] (np_log (perplexity default_SOS)) 1) /\
       visited np_exp np_log [0] (np_log (perplexity default_SOS))
         (eps default_SOS) s /\
       tries s = 5000%Z /\ beta_i s = 0 /\ (0 <? beta_i s) = false) /\
  halved 1074 = 0x1p-1074 /\ halved 1075 = 0.
Proof.
  split; [| split; vm_compute; reflexivity].
  intros np_exp np_log Hexp Hlog Htarget.
  set (logU := np_log (perplexity default_SOS)) in *.
  eexists. split; [reflexivity |].
  split; [apply search_visits; constructor |].
  rewrite (halving_entry np_exp np_log Hexp Hlog logU).
  rewrite (halving_run np_exp np_log Hexp Hlog (eps default_SOS) logU
             eq_refl Htarget (Z.to_nat max_tries) 0 eq_refl).
  cbn [tries beta_i halving_state Nat.add].
  split; [reflexivity |].
  assert (E : halved (Z.to_nat max_tries) = 0) by (vm_compute; reflexivity).
  rewrite E. split; reflexivity.
Qed.

End Binary64Calibration.

(** ** Binary64: the Euclidean branch of [_x2d] *)

Section Binary64Dissimilarity.
Import Floats.
Import Binary64.
Local Open Scope float_scope.

Lemma get_cons_S_b64 (x : float) (v : vector) (j : nat) :
  get (x :: v) (S j) = get v j.
Proof. reflexivity. Qed.

Lemma get_map2_b64 (f : float -> float -> float) (u v : vector) (j : nat) :
  (j < length u)%nat -> (j < length v)%nat ->
  get (map2 f u v) j = f (get u j) (get v j).
Proof.
  revert v j; induction u as [|a u IH]; intros [|b v] [|j]; simpl;
    intros Hu Hv; try lia; try reflexivity.
  rewrite !get_cons_S_b64. apply IH; lia.
Qed.

Lemma get_map_b64 (f : float -> float) (v : vector) (j : nat) :
  (j < length v)%nat -> get (map f v) j = f (get v j).
Proof.
  intros Hj. unfold get.
  rewrite (nth_indep _ 0 (f 0)) by (rewrite length_map; exact Hj).
  apply map_nth.
Qed.

Lemma rectangular_row_b64 (n d : nat) (M : matrix) (i : nat) :
  rectangular n d M -> (i < n)%nat -> length (nth i M []) = d.
Proof.
  intros [Hn HM] Hi. rewrite Forall_forall in HM.
  apply HM, nth_In. lia.
Qed.

Lemma rectangular_ncols_b64 (n d : nat) (M : matrix) :
  rectangular n d M -> (0 < n)%nat -> ncols M = d.
Proof.
  intros [Hn HM] Hpos. unfold ncols. destruct M as [|r M]; simpl in *.
  - lia.
  - inversion HM; assumption.
Qed.

Lemma rectangular_mat_map_b64 (n m : nat) (f : float -> float) (M : matrix) :
  rectangular n m M -> rectangular n m (mat_map f M).
Proof.
  intros [Hn HM]. split; unfold mat_map.
  - rewrite length_map. exact Hn.
  - rewrite Forall_map. eapply Forall_impl; [| exact HM].
    intros row Hr. simpl. rewrite length_map. exact Hr.
Qed.

Lemma rectangular_add_rowvec_b64 (n m : nat) (M : matrix) (v : vector) :
  rectangular n m M -> length v = m -> rectangular n m (add_rowvec M v).
Proof.
  intros [Hn HM] Hv. split; unfold add_rowvec.
  - rewrite length_map. exact Hn.
  - rewrite Forall_map. eapply Forall_impl; [| exact HM].
    intros row Hr. simpl. rewrite map2_length, Hr, Hv. apply Nat.min_id.
Qed.

Lemma rectangular_transpose_b64 (m : nat) (M : matrix) :
  rectangular m (length M) (transpose m M).
Proof.
  split; unfold transpose.
  - rewrite length_map. apply length_seq.
  - rewrite Forall_map, Forall_forall. intros j _. unfold column.
    apply length_map.
Qed.

Lemma rectangular_np_dot_b64 (m : nat) (X Y : matrix) :
  rectangular (length X) m (np_dot m X Y).
Proof.
  split; unfold np_dot.
  - apply length_map.
  - rewrite Forall_map, Forall_forall. intros x _.
    rewrite length_map. apply length_seq.
Qed.

Lemma nth_map_row_b64 {T : Type} (f : list T -> vector) (M : list (list T))
  (i : nat) :
  (i < length M)%nat -> nth i (map f M) [] = f (nth i M []).
Proof.
  intros Hi. rewrite (nth_indep _ [] (f [])) by (rewrite length_map; exact Hi).
  apply map_nth.
Qed.

Lemma get2_mat_map_b64 (n m : nat) (f : float -> float) (M : matrix) (i j : nat) :
  rectangular n m M -> (i < n)%nat -> (j < m)%nat ->
  get2 (mat_map f M) i j = f (get2 M i j).
Proof.
  intros HM Hi Hj. pose proof (rectangular_row_b64 n m M i HM Hi) as Hrow.
  destruct HM as [Hn _]. unfold get2, mat_map.
  rewrite nth_map_row_b64 by lia. apply get_map_b64. lia.
Qed.

Lemma get2_add_rowvec_b64 (n m : nat) (M : matrix) (v : vector) (i j : nat) :
  rectangular n m M -> length v = m -> (i < n)%nat -> (j < m)%nat ->
  get2 (add_rowvec M v) i j = add (get2 M i j) (get v j).
Proof.
  intros HM Hv Hi Hj. pose proof (rectangular_row_b64 n m M i HM Hi) as Hrow.
  destruct HM as [Hn _]. unfold get2, add_rowvec.
  rewrite (nth_map_row_b64 (fun row => map2 add row v)) by lia.
  apply get_map2_b64; lia.
Qed.

Lemma get_column_b64 (M : matrix) (i j : nat) :
  (i < length M)%nat -> get (column M j) i = get2 M i j.
Proof.
  intros Hi. unfold column, get2, get at 1.
  rewrite (nth_indep _ 0 (get [] j)) by (rewrite length_map; exact Hi).
  apply (map_nth (fun row => get row j)).
Qed.

Lemma get2_transpose_b64 (m : nat) (M : matrix) (i j : nat) :
  (i < m)%nat -> (j < length M)%nat ->
  get2 (transpose m M) i j = get2 M j i.
Proof.
  intros Hi Hj. unfold get2 at 1, transpose.
  rewrite nth_map_seq by exact Hi. apply get_column_b64. exact Hj.
Qed.

Lemma get2_np_dot_b64 (m : nat) (X Y : matrix) (i j : nat) :
  (i < length X)%nat -> (j < m)%nat ->
  get2 (np_dot m X Y) i j = dot_vec (nth i X []) (column Y j).
Proof.
  intros Hi Hj. unfold get2, np_dot.
  rewrite (nth_map_row_b64
             (fun x => map (fun j => dot_vec x (column Y j)) (seq 0 m)))
    by exact Hi.
  unfold get.
  apply (nth_map_seq (fun j => dot_vec (nth i X []) (column Y j))). exact Hj.
Qed.

Lemma list_as_map_seq_b64 (v : vector) :
  map (get v) (seq 0 (length v)) = v.
Proof.
  apply (nth_ext _ _ 0 0).
  - rewrite length_map. apply length_seq.
  - intros k Hk. rewrite length_map, length_seq in Hk.
    rewrite nth_map_seq by exact Hk. reflexivity.
Qed.

Lemma column_transpose_b64 (n d : nat) (X : matrix) (j : nat) :
  rectangular n d X -> (j < n)%nat ->
  column (transpose d X) j = nth j X [].
Proof.
  intros HX Hj. pose proof (rectangular_row_b64 n d X j HX Hj) as Hrow.
  destruct HX as [Hn _]. unfold column at 1, transpose. rewrite map_map.
  transitivity (map (get (nth j X [])) (seq 0 d)).
  - apply map_ext. intros k. apply get_column_b64. lia.
  - rewrite <- Hrow. apply list_as_map_seq_b64.
Qed.

Lemma get_sumX_b64 (X : matrix) (i : nat) :
  (i < length X)%nat ->
  get (np_sum_axis1 (mat_map square X)) i = sq_norm (nth i X []).
Proof.
  intros Hi. unfold np_sum_axis1, mat_map, sq_norm, get. rewrite map_map.
  rewrite (nth_indep _ 0 (np_sum (map square [])))
    by (rewrite length_map; exact Hi).
  apply (map_nth (fun x => np_sum (map square x))).
Qed.

Lemma x2d_euclidean_b64 (scipy : option (string -> matrix -> exn + matrix))
  (self : SOS) (n d : nat) (X : matrix) :
  rectangular n d X -> metric self = "euclidean"%string ->
  exists D,
    _x2d scipy self X = inr D /\ rectangular n n D /\
    forall i j, (i < n)%nat -> (j < n)%nat ->
      get2 D i j = euclidean_cell (nth i X []) (nth j X []).
Proof.
  intros HX Hm. unfold _x2d, shape. rewrite Hm. cbn [String.eqb Ascii.eqb Bool.eqb].
  cbv iota. eexists. split; [reflexivity |].
  pose proof HX as [Hn _]. unfold nrows. rewrite Hn.
  set (sumX := np_sum_axis1 (mat_map square X)).
  assert (HsumX : length sumX = n).
  { unfold sumX, np_sum_axis1, mat_map. rewrite !length_map. exact Hn. }
  set (G := mat_map (mul ((-2))) (np_dot n X (transpose (ncols X) X))).
  assert (HG : rectangular n n G).
  { apply rectangular_mat_map_b64. rewrite <- Hn at 1. apply rectangular_np_dot_b64. }
  assert (HT : rectangular n n (transpose n (add_rowvec G sumX))).
  { pose proof (rectangular_transpose_b64 n (add_rowvec G sumX)) as HT.
    unfold add_rowvec in HT at 1. rewrite length_map in HT.
    destruct HG as [HGn _]. rewrite HGn in HT. exact HT. }
  split.
  - do 2 apply rectangular_mat_map_b64. apply rectangular_add_rowvec_b64; assumption.
  - intros i j Hi Hj.
    destruct (Nat.eq_dec n 0) as [Hz | Hz]; [lia |].
    assert (Hd : ncols X = d) by (apply (rectangular_ncols_b64 n); [exact HX | lia]).
    rewrite (get2_mat_map_b64 n n), (get2_mat_map_b64 n n); auto;
      try (apply rectangular_mat_map_b64);
      try (apply rectangular_add_rowvec_b64; assumption).
    rewrite (get2_add_rowvec_b64 n n) by assumption.
    rewrite get2_transpose_b64
      by (try exact Hi; unfold add_rowvec; rewrite length_map;
          destruct HG as [-> _]; exact Hj).
    rewrite (get2_add_rowvec_b64 n n) by assumption.
    unfold G. rewrite (get2_mat_map_b64 n n); auto;
      [| rewrite <- Hn at 1; apply rectangular_np_dot_b64].
    rewrite get2_np_dot_b64 by lia. rewrite Hd.
    rewrite (column_transpose_b64 n d) by assumption.
    unfold sumX. rewrite !get_sumX_b64 by lia. reflexivity.
Qed.

End Binary64Dissimilarity.

Section Binary64Euclidean.
Import Floats.
Import Binary64.
Local Open Scope float_scope.

Lemma signed_not_below_zero (x : spec_float) :
  signed false x -> SFltb x (S754_zero false) = false.
Proof. destruct x as [s | s | | s m e]; cbn; intros; subst; auto; contradiction. Qed.

(** The square root of an absolute value is NaN or not negative. *)
Lemma sqrt_abs_not_negative (x : float) : (sqrt (abs x) <? 0) = false.
Proof.
  rewrite ltb_spec, sqrt_spec, abs_spec.
  change (Prim2SF 0) with (S754_zero false).
  destruct (Prim2SF x) as [s | s | | s m e]; try reflexivity.
  cbn [SFabs]. unfold SF64sqrt, SFsqrt.
  destruct (SFsqrt_core_binary prec emax (Z.pos m) e) as [[mz ez] lz] eqn:Ecore.
  apply signed_not_below_zero, binary_round_aux_signed.
  unfold SFsqrt_core_binary in Ecore.
  match type of Ecore with
  | (let (q, r) := Z.sqrtrem ?a in _) = _ =>
      pose proof (Z.sqrt_nonneg a) as Hq;
      rewrite <- Z.sqrtrem_sqrt in Hq;
      destruct (Z.sqrtrem a) as [q r]
  end.
  injection Ecore as <- _ _. exact Hq.
Qed.




End Binary64Euclidean.

(** ** Binary64: binding probabilities *)

Section Binary64Normalize.
Import Floats.
Import Binary64.
Local Open Scope float_scope.

Lemma a2b_rows_b64 (A : matrix) :
  _a2b A = map (fun row => map (fun a => div a (np_sum row)) row) A.
Proof. unfold _a2b, np_sum_axis1. apply map2_map_diag. Qed.

Lemma a2b_row_b64 (A : matrix) (i : nat) :
  (i < length A)%nat ->
  nth i (_a2b A) [] =
  map (fun a => div a (np_sum (nth i A []))) (nth i A []).
Proof.
  intros Hi. rewrite a2b_rows_b64.
  apply (nth_map_row_b64 (fun row => map (fun a => div a (np_sum row)) row)).
  exact Hi.
Qed.

Lemma a2b_shape_b64 (n m : nat) (A : matrix) :
  rectangular n m A -> rectangular n m (_a2b A).
Proof.
  intros [Hn HA]. rewrite a2b_rows_b64. split.
  - rewrite length_map. exact Hn.
  - rewrite Forall_map. eapply Forall_impl; [| exact HA].
    intros row Hr. simpl. rewrite length_map. exact Hr.
Qed.

Lemma a2b_cell_b64 (n m : nat) (A : matrix) (i j : nat) :
  rectangular n m A -> (i < n)%nat -> (j < m)%nat ->
  get2 (_a2b A) i j = div (get2 A i j) (np_sum (nth i A [])).
Proof.
  intros HA Hi Hj. pose proof (rectangular_row_b64 n m A i HA Hi) as Hrow.
  destruct HA as [Hn _]. unfold get2. rewrite a2b_row_b64 by lia.
  apply (get_map_b64 (fun a => div a (np_sum (nth i A [])))). lia.
Qed.

Lemma zero_over_number (a s : float) :
  is_nan s = false -> is_zero s = false -> is_zero a = true ->
  is_zero (a / s) = true.
Proof.
  rewrite is_nan_spec. unfold is_zero. rewrite !eqb_spec, div_spec.
  change (Prim2SF zero) with (S754_zero false).
  destruct (Prim2SF a) as [sa | sa | | sa ma ea];
    destruct (Prim2SF s) as [ss | ss | | ss ms es];
    cbn; try congruence; try reflexivity;
    try (destruct sa; discriminate); try (destruct sa, ss; discriminate).
Qed.

Lemma zero_over_zero (a s : float) :
  is_zero s = true -> is_zero a = true -> is_nan (a / s) = true.
Proof.
  unfold is_zero, is_nan. rewrite !eqb_spec, div_spec.
  change (Prim2SF zero) with (S754_zero false).
  destruct (Prim2SF a) as [sa | sa | | sa ma ea];
    destruct (Prim2SF s) as [ss | ss | | ss ms es];
    cbn; try congruence; try reflexivity;
    try (destruct sa; discriminate); try (destruct ss; discriminate).
Qed.

Lemma finite_over_infinity (a s : float) :
  is_infinity s = true -> is_finite a = true -> is_zero (a / s) = true.
Proof.
  unfold is_finite, is_infinity, is_nan, is_zero.
  rewrite !eqb_spec, !abs_spec, div_spec.
  change (Prim2SF zero) with (S754_zero false).
  change (Prim2SF infinity) with (S754_infinity false).
  destruct (Prim2SF a) as [sa | sa | | sa ma ea];
    destruct (Prim2SF s) as [ss | ss | | ss ms es];
    cbn; try congruence; try reflexivity;
    try (destruct sa; discriminate); try (destruct ss; discriminate).
Qed.

Lemma zero_plus_zero (x y : float) :
  is_zero x = true -> is_zero y = true -> is_zero (x + y) = true.
Proof.
  unfold is_zero. rewrite !eqb_spec, add_spec.
  change (Prim2SF zero) with (S754_zero false).
  destruct (Prim2SF x) as [sx | sx | | sx mx ex];
    destruct (Prim2SF y) as [sy | sy | | sy my ey];
    cbn; try congruence; try reflexivity;
    try (destruct sx; discriminate); try (destruct sy; discriminate).
  destruct sx, sy; reflexivity.
Qed.

Lemma sum_of_zeros (row : vector) :
  Forall (fun a => is_zero a = true) row -> is_zero (np_sum row) = true.
Proof.
  unfold np_sum. assert (H0 : is_zero 0 = true) by reflexivity.
  revert H0. generalize 0 as acc.
  induction row as [|a row IH]; intros acc Hacc Hrow; cbn [fold_left].
  - exact Hacc.
  - apply Forall_cons_iff in Hrow as [Ha Hrow].
    apply IH; [apply zero_plus_zero; assumption | exact Hrow].
Qed.




End Binary64Normalize.

(** ** Binary64: permutations of the samples *)

Section Binary64Permutation.
Import Floats.
Import Binary64.
Local Open Scope float_scope.

Lemma vector_ext_b64 (n : nat) (u v : vector) :
  length u = n -> length v = n ->
  (forall j, (j < n)%nat -> get u j = get v j) -> u = v.
Proof.
  intros Hu Hv Hcells. apply (nth_ext _ _ 0 0); [lia |].
  intros j Hj. apply Hcells. lia.
Qed.

Lemma matrix_ext_b64 (n m : nat) (M M' : matrix) :
  rectangular n m M -> rectangular n m M' ->
  (forall i j, (i < n)%nat -> (j < m)%nat -> get2 M i j = get2 M' i j) ->
  M = M'.
Proof.
  intros HM HM' Hcells. pose proof HM as [Hn _]. pose proof HM' as [Hn' _].
  apply (nth_ext _ _ [] []); [lia |].
  intros i Hi. rewrite Hn in Hi. apply (vector_ext_b64 m).
  - apply (rectangular_row_b64 n m M i HM Hi).
  - apply (rectangular_row_b64 n m M' i HM' Hi).
  - intros j Hj. apply (Hcells i j Hi Hj).
Qed.

Section Permuted64.

Variable n : nat.
Variable pi : list nat.
Hypothesis pi_perm : Permutation pi (seq 0 n).

Lemma permuted_shape (M : matrix) : rectangular n n (permute_both pi M).
Proof.
  unfold permute_both, permute_rows, permute_vector, take. split.
  - rewrite !length_map. apply (pi_length n pi pi_perm).
  - rewrite Forall_map, Forall_map, Forall_forall. intros k _.
    rewrite length_map. apply (pi_length n pi pi_perm).
Qed.

Lemma permuted_cell (M : matrix) (a b : nat) :
  (a < n)%nat -> (b < n)%nat ->
  get2 (permute_both pi M) a b = get2 M (nth a pi O) (nth b pi O).
Proof.
  intros Ha Hb.
  assert (Erow : nth a (permute_both pi M) [] = take (nth (nth a pi O) M []) pi).
  { unfold permute_both, permute_rows, permute_vector. rewrite map_map.
    apply (nth_map_list (fun k => take (nth k M []) pi)).
    rewrite (pi_length n pi pi_perm). exact Ha. }
  unfold get2. rewrite Erow. unfold take, get at 1.
  apply (nth_map_list (get (nth (nth a pi O) M []))).
  rewrite (pi_length n pi pi_perm). exact Hb.
Qed.

Lemma permuted_rows_shape (d : nat) (X : matrix) :
  rectangular n d X -> rectangular n d (permute_rows pi X).
Proof.
  intros HX. unfold permute_rows. split.
  - rewrite length_map. apply (pi_length n pi pi_perm).
  - rewrite Forall_map, Forall_forall. intros k Hk.
    apply (rectangular_row_b64 n d X k HX).
    apply (Permutation_in _ pi_perm), in_seq in Hk. lia.
Qed.

Lemma permuted_rows_row (X : matrix) (a : nat) :
  (a < n)%nat -> nth a (permute_rows pi X) [] = nth (nth a pi O) X [].
Proof.
  intros Ha. unfold permute_rows.
  apply (nth_map_list (fun k => nth k X [])).
  rewrite (pi_length n pi pi_perm). exact Ha.
Qed.

Lemma dissimilarity_permuted
  (scipy : option (string -> matrix -> exn + matrix))
  (self : SOS) (d : nat) (X : matrix) :
  rectangular n d X -> metric self = "euclidean"%string ->
  exists D,
    _x2d scipy self X = inr D /\ rectangular n n D /\
    _x2d scipy self (permute_rows pi X) = inr (permute_both pi D).
Proof.
  intros HX Hm.
  destruct (x2d_euclidean_b64 scipy self n d X HX Hm)
    as [D [HD [Hshape Hcell]]].
  destruct (x2d_euclidean_b64 scipy self n d (permute_rows pi X)
              (permuted_rows_shape d X HX) Hm) as [D' [HD' [Hshape' Hcell']]].
  exists D. split; [exact HD | split; [exact Hshape |]].
  rewrite HD'. f_equal. apply (matrix_ext_b64 n n).
  - exact Hshape'.
  - apply permuted_shape.
  - intros a b Ha Hb.
    rewrite permuted_cell by assumption.
    rewrite Hcell' by assumption.
    rewrite Hcell by (apply (pi_range n pi pi_perm); assumption).
    rewrite !permuted_rows_row by assumption. reflexivity.
Qed.

(** The off-diagonal part of a row of the permuted dissimilarities is the
    off-diagonal part of the original row, in another order. *)
Lemma off_diagonal_reordered (D : matrix) (a : nat) :
  (a < n)%nat ->
  Permutation (off_diagonal (permute_both pi D) n a)
              (off_diagonal D n (nth a pi O)).
Proof.
  intros Ha. unfold off_diagonal.
  assert (Erow : nth a (permute_both pi D) [] = take (nth (nth a pi O) D []) pi).
  { unfold permute_both, permute_rows, permute_vector. rewrite map_map.
    apply (nth_map_list (fun k => take (nth k D []) pi)).
    rewrite (pi_length n pi pi_perm). exact Ha. }
  rewrite Erow.
  set (row := nth (nth a pi O) D []).
  assert (E : take (take row pi) (others a n) =
              map (get row) (map (fun b => nth b pi O) (others a n))).
  { unfold take at 1. rewrite map_map. apply map_ext_in.
    intros b Hb. apply others_in in Hb; [| exact Ha].
    unfold take, get at 1.
    apply (nth_map_list (get row)).
    rewrite (pi_length n pi pi_perm). tauto. }
  rewrite E. unfold take. apply Permutation_map.
  apply (others_permuted n pi pi_perm). exact Ha.
Qed.

End Permuted64.


Lemma swap_last_permutation : Permutation swap_last (seq 0 4).
Proof.
  unfold swap_last. cbn [seq]. do 2 apply perm_skip. apply perm_swap.
Qed.

Lemma X_line_shape : rectangular 4 1 X_line.
Proof. split; [reflexivity | repeat constructor]. Qed.


End Binary64Permutation.

(** ** Binary64: the order of the samples changes the rounding *)

Section Binary64Reordering.
Import Floats.
Import Binary64.
Local Open Scope float_scope.

Lemma is_finite_spec (x : float) :
  is_finite x = true ->
  match Prim2SF x with
  | S754_zero _ | S754_finite _ _ _ => True
  | _ => False
  end.
Proof.
  unfold is_finite, is_nan, is_infinity.
  rewrite !eqb_spec, abs_spec.
  change (Prim2SF infinity) with (S754_infinity false).
  destruct (Prim2SF x) as [s | [|] | | s m e]; cbn; auto; discriminate.
Qed.

Lemma binary_normalize_not_nan (m e : Z) (szero : bool) :
  binary_normalize prec emax m e szero <> S754_nan.
Proof.
  destruct m as [|p|p]; cbn [binary_normalize].
  - discriminate.
  - apply (signed_not_nan false), binary_round_signed.
  - apply (signed_not_nan true), binary_round_signed.
Qed.

(** The difference of the entropy and the target is a number when the
    logarithms and the second term of the entropy are finite. *)
Lemma entropy_is_number (l q u : float) :
  is_finite l = true -> is_finite q = true -> is_finite u = true ->
  is_nan ((l + q) - u) = false.
Proof.
  intros Hl Hq Hu. apply is_finite_spec in Hl, Hq, Hu.
  apply is_nan_spec. rewrite sub_spec, add_spec.
  assert (Hs : SF64add (Prim2SF l) (Prim2SF q) <> S754_nan).
  { destruct (Prim2SF l) as [sl | sl | | sl ml el]; try contradiction;
      destruct (Prim2SF q) as [sq | sq | | sq mq eq]; try contradiction;
      unfold SF64add, SFadd; try discriminate.
    - destruct sl, sq; discriminate.
    - apply binary_normalize_not_nan. }
  destruct (SF64add (Prim2SF l) (Prim2SF q)) as [ss | ss | | ss ms es];
    try congruence;
    destruct (Prim2SF u) as [su | su | | su mu eu]; try contradiction;
    unfold SF64sub, SFsub; try discriminate.
  - destruct ss, su; discriminate.
  - apply binary_normalize_not_nan.
Qed.

Lemma nothing_above_infinity (x : float) : (infinity <? x) = false.
Proof.
  rewrite ltb_spec. change (Prim2SF infinity) with (S754_infinity false).
  destruct (Prim2SF x) as [s | [|] | | s m e]; reflexivity.
Qed.

Section AnyEntropy.

Variables np_exp np_log : float -> float.

(** [np.log] returns a finite number on a finite positive argument. *)
Hypothesis log_finite :
  forall x, is_finite x = true -> (0 <? x) = true ->
            is_finite (np_log x) = true.

Lemma d2a_fold_b64 (D : matrix) (n : nat) (logU eps : float) (k : nat) :
  (k <= n)%nat ->
  fold_left (d2a_row np_exp np_log D n logU eps) (seq 0 k)
    (np_zeros n n, np_ones n) =
  (map (fun i => if (i <? k)%nat
                 then affinity_row np_exp np_log D n logU eps i
                 else repeat 0 n) (seq 0 n),
   map (fun i => if (i <? k)%nat
                 then beta_i (row_state np_exp np_log D n logU eps i)
                 else 1) (seq 0 n)).
Proof.
  induction k as [|k IH]; intros Hk.
  - simpl. unfold np_zeros, np_ones. rewrite !repeat_map_seq. reflexivity.
  - rewrite seq_S, fold_left_app, IH by lia. simpl.
    unfold get. rewrite !nth_map_seq by lia. rewrite Nat.ltb_irrefl.
    fold (off_diagonal D n k).
    fold (row_state np_exp np_log D n logU eps k).
    fold (affinity_row np_exp np_log D n logU eps k).
    rewrite !set_map_seq by lia. simpl. f_equal.
    + apply map_ext. intros i.
      destruct (Nat.eqb_spec i k) as [->|Hne].
      * assert (E : (k <? S k)%nat = true) by (apply Nat.ltb_lt; lia).
        rewrite E. reflexivity.
      * destruct (Nat.ltb_spec i k), (Nat.ltb_spec i (S k)); auto; lia.
    + apply map_ext. intros i.
      destruct (Nat.eqb_spec i k) as [->|Hne].
      * assert (E : (k <? S k)%nat = true) by (apply Nat.ltb_lt; lia).
        rewrite E. reflexivity.
      * destruct (Nat.ltb_spec i k), (Nat.ltb_spec i (S k)); auto; lia.
Qed.

Lemma d2a_rows_b64 (self : SOS) (D : matrix) :
  let n := length D in
  _d2a np_exp np_log self D =
  map (affinity_row np_exp np_log D n (np_log (perplexity self)) (eps self))
      (seq 0 n).
Proof.
  intros n. unfold _d2a, shape, nrows. simpl fst. fold n.
  rewrite d2a_fold_b64 by lia. simpl. apply map_ext_in.
  intros i Hi. apply in_seq in Hi.
  assert (E : (i <? n)%nat = true) by (apply Nat.ltb_lt; lia).
  rewrite E. reflexivity.
Qed.

(** With the tolerance [infinity] the loop of a row does not run when the
    entropy on entry is a number. *)
Lemma search_skipped (Di : vector) (logU : float) :
  is_nan (Hdiff (entry np_exp np_log Di logU 1)) = false ->
  search np_exp np_log Di logU infinity (entry np_exp np_log Di logU 1)
  = entry np_exp np_log Di logU 1.
Proof.
  intros Hnan. rewrite search_equation. unfold continue, off_target.
  rewrite Hnan, nothing_above_infinity. reflexivity.
Qed.

Lemma table_row (D : matrix) (i : nat) :
  (forall d, In d (off_diagonal D (length D) i) ->
             np_exp (- d * 1) = exp_table (- d * 1)) ->
  entropy_defined D i = true ->
  affinity_row np_exp np_log D (length D)
    (np_log (perplexity SOS_any_entropy)) infinity i
  = put (repeat 0 (length D)) (others i (length D))
        (table_kernel (off_diagonal D (length D) i)).
Proof.
  intros Htable Hdef. unfold affinity_row, row_state.
  set (Di := off_diagonal D (length D) i) in *.
  assert (EA : map (fun d => np_exp (- d * 1)) Di = table_kernel Di)
    by (apply map_ext_in; exact Htable).
  unfold entropy_defined in Hdef. fold Di in Hdef.
  apply andb_prop in Hdef as [Hdef Hq]. apply andb_prop in Hdef as [Hs Hpos].
  assert (Eentry :
    entry np_exp np_log Di (np_log (perplexity SOS_any_entropy)) 1 =
    {| beta_i := 1; betamin := neg_infinity; betamax := infinity;
       H_i := np_log (np_sum (table_kernel Di))
              + 1 * np_sum (map2 mul Di (table_kernel Di))
                / np_sum (table_kernel Di);
       thisA := table_kernel Di;
       Hdiff := (np_log (np_sum (table_kernel Di))
                 + 1 * np_sum (map2 mul Di (table_kernel Di))
                   / np_sum (table_kernel Di))
                - np_log (perplexity SOS_any_entropy);
       tries := 0 |}).
  { unfold entry, _get_perplexity. rewrite EA. reflexivity. }
  rewrite search_skipped; rewrite Eentry; cbn [thisA Hdiff]; [reflexivity |].
  apply entropy_is_number.
  - apply log_finite; assumption.
  - exact Hq.
  - apply log_finite; reflexivity.
Qed.

Lemma table_matrix (D : matrix) :
  (forall i d, (i < length D)%nat -> In d (off_diagonal D (length D) i) ->
               np_exp (- d * 1) = exp_table (- d * 1)) ->
  forallb (entropy_defined D) (seq 0 (length D)) = true ->
  _d2a np_exp np_log SOS_any_entropy D = table_affinities D.
Proof.
  intros Htable Hdef. rewrite d2a_rows_b64. unfold table_affinities.
  apply map_ext_in. intros i Hi.
  rewrite forallb_forall in Hdef. pose proof (Hdef i Hi) as Hi'.
  apply in_seq in Hi.
  apply table_row; [| exact Hi']. intros d Hd. apply (Htable i d); [lia | exact Hd].
Qed.

Hypothesis exp_1 : np_exp (-1) = exp_m1.
Hypothesis exp_2 : np_exp (-2) = exp_m2.
Hypothesis exp_3 : np_exp (-3) = exp_m3.
Hypothesis exp_4 : np_exp (-4) = exp_m4.

Lemma table_agrees (d : float) :
  In d [1; 2; 3; 4] -> np_exp (- d * 1) = exp_table (- d * 1).
Proof.
  intros [<- | [<- | [<- | [<- | []]]]].
  - exact exp_1.
  - exact exp_2.
  - exact exp_3.
  - exact exp_4.
Qed.

Lemma line_affinities :
  _d2a np_exp np_log SOS_any_entropy D_line = table_affinities D_line /\
  _d2a np_exp np_log SOS_any_entropy D_line_swapped
  = table_affinities D_line_swapped.
Proof.
  split; apply table_matrix; try (vm_compute; reflexivity);
    intros i d Hi Hd; apply table_agrees;
    do 4 (destruct i as [|i]; [vm_compute in Hd; cbn [In]; tauto |]);
    cbn in Hi; lia.
Qed.

End AnyEntropy.

End Binary64Reordering.

Section Binary64Order.
Import Floats.
Import Binary64.
Local Open Scope float_scope.


End Binary64Order.
